(** * Loop recorder of the DR-16 sampler: tempo clock, metronome, count-in,
      capture log and playback scheduler.

    The development follows the component [Recorder] in its version with
    metronome and count-in, and the recording part of the component
    [Sampler] that hosts it.  The earlier [components/Recorder.tsx] has the
    same [calculateDuration], [startPlayback] and [stopPlayback], without
    the metronome.

    Conventions of the embedding.
    - A JavaScript [number] that holds a clock reading, a timestamp, a pad
      id, a bar or beat counter is an integer and is a [Z].  The clock is
      [Date.now()], in milliseconds.
    - A [number] obtained by a division (a duration in ms, a position in
      the loop) is a rational [Q]: arithmetic is exact.  A division by zero,
      which yields [Infinity] or [NaN] in JavaScript, is outside the model;
      statements about a division carry the hypothesis that the divisor is
      positive.
    - A handle returned by [window.setTimeout] or [window.setInterval] is a
      [positive]: the handles of a browser are integers greater than zero,
      so that the tests [if (ref.current)] of the source are tests against
      [null].
    - A function of the component closes over the values of the render that
      created it.  Every handler therefore takes two arguments: the [Render]
      it closed over, from which it reads, and the [State] it writes to
      through the setters and the refs.  A deferred callback stores the
      [Render] of the handler that scheduled it. *)

From Stdlib Require Import ZArith QArith Qround Qminmax Qabs List Bool Lia Lqa.
Import ListNotations.

Local Open Scope Z_scope.

(** ** types.ts *)

Record RecordedHit : Type := mkHit {
  padId : Z;
  timestamp : Z  (* milliseconds from start *)
}.

Module Recording.
Record t : Type := mk {
  hits : list RecordedHit;
  bars : Z;
  bpm : Z;
  duration : Q  (* total duration in milliseconds *)
}.
End Recording.

(** ** Tempo clock *)

Module Math.
Definition min (x y : Q) : Q := Qmin x y.
Definition max (x y : Q) : Q := Qmax x y.
Definition floor (x : Q) : Z := Qfloor x.
End Math.

(** [calculateDuration]: 4 beats per bar, duration in milliseconds. *)
Definition calculateDuration (selectedBars selectedBpm : Q) : Q :=
  let beats := (selectedBars * 4)%Q in
  ((beats / selectedBpm) * 60 * 1000)%Q.

(** The position shown while a window of [total] ms runs:
    [Math.min(elapsed / duration, 1)], as both the recording interval and
    the playback interval compute it. *)
Definition positionAt (elapsed total : Q) : Q :=
  Math.min (elapsed / total) 1.

Record BarBeat : Type := mkBarBeat { bar : Z; beat : Z }.

(** [getCurrentBarAndBeat]; the [%] of JavaScript is the remainder of the
    truncated division, [Z.rem]. *)
Definition getCurrentBarAndBeat (bars : Z) (position : Q) : BarBeat :=
  let totalBeats := (inject_Z bars * 4)%Q in
  let currentBeat := Math.floor (position * totalBeats) in
  let bar := Math.floor (inject_Z currentBeat / 4) + 1 in
  let beat := Z.rem currentBeat 4 + 1 in
  {| bar := bar; beat := beat |}.

(** The formulas of the specification's tempo clock, written from its text. *)
Module TempoSpec.
Definition durationMs (bars bpm : Q) : Q := (bars * 4 * (60000 / bpm))%Q.
Definition clamp (x lo hi : Q) : Q := Qmax lo (Qmin x hi).
Definition fraction (elapsedMs totalMs : Q) : Q :=
  clamp (elapsedMs / totalMs) 0 1.
Definition beatIndex (elapsedMs totalMs : Q) (bars : Z) : Z :=
  Qfloor (fraction elapsedMs totalMs * inject_Z bars * 4).
Definition bar (elapsedMs totalMs : Q) (bars : Z) : Z :=
  beatIndex elapsedMs totalMs bars / 4 + 1.
Definition beat (elapsedMs totalMs : Q) (bars : Z) : Z :=
  beatIndex elapsedMs totalMs bars mod 4 + 1.
End TempoSpec.

(** ** The host: timers and clock

    [window.setTimeout], [window.setInterval], [clearTimeout],
    [clearInterval] and [Date.now], over an explicit queue of pending
    callbacks. *)

Definition TimerId : Type := positive.

(** What a render of [Sampler] and [Recorder] closes over: the values of
    their [useState] hooks. *)
Record Render : Type := mkRender {
  (* Recorder *)
  bpm : Z;
  bars : Z;
  recording : option Recording.t;
  isPlaying : bool;
  playbackPosition : Q;      (* 0 to 1 *)
  recordingPosition : Q;     (* 0 to 1 *)
  metronomeEnabled : bool;
  countInBars : Z;
  isCountingIn : bool;
  countInBar : Z;
  (* Sampler *)
  isRecording : bool;
  recordedHits : list RecordedHit;
  playingPads : list Z;
  audioContext : bool        (* false: null *)
}.

(** A deferred callback, with what it closed over and its own local
    variables ([beatCount] of the metronome interval, [currentBar] of the
    bar interval). *)
Inductive Callback : Type :=
| MetronomeTick (c : Render) (beatCount : Z)
| BarAdvance (c : Render) (currentBar : Z)
| CountInDone (c : Render) (barInterval : TimerId)
| RecordingTick (c : Render)
| AutoStop
| HitTrigger (c : Render) (hit : RecordedHit)
| PlaybackTick (c : Render) (r : Recording.t)
| LoopRestart (c : Render)
| PadRelease (id : Z).

Record Timer : Type := mkTimer {
  tid : TimerId;
  due : Z;                 (* clock reading from which it may run *)
  period : option Z;       (* [Some p] for an interval *)
  callback : Callback
}.

Record State : Type := mkState {
  ui : Render;
  (* Recorder: useRef *)
  recordingStartTimeRef : Z;
  countInTimeoutRef : option TimerId;
  playbackIntervalRef : option TimerId;
  playbackStartTimeRef : Z;
  scheduledHitsRef : list TimerId;         (* Set<number> *)
  recordingIntervalRef : option TimerId;
  metronomeIntervalRef : option TimerId;
  (* Sampler: useRef *)
  samplerStartTimeRef : Z;                 (* its own recordingStartTimeRef *)
  audioBuffersRef : list Z;                (* pads that hold a sample *)
  (* host *)
  now : Z;                                 (* Date.now() *)
  timers : list Timer;
  nextTimerId : TimerId;
  (* outputs *)
  sounds : list (Z * Z);                   (* (clock, pad): source started *)
  clicks : list (Z * bool)                 (* (clock, isDownbeat) *)
}.

(** *** Setters of the [useState] hooks *)

Definition with_ui (f : Render -> Render) (s : State) : State :=
  mkState (f (ui s)) (recordingStartTimeRef s) (countInTimeoutRef s)
    (playbackIntervalRef s) (playbackStartTimeRef s) (scheduledHitsRef s)
    (recordingIntervalRef s) (metronomeIntervalRef s) (samplerStartTimeRef s)
    (audioBuffersRef s) (now s) (timers s) (nextTimerId s) (sounds s)
    (clicks s).

Definition setBpm (v : Z) : State -> State :=
  with_ui (fun p => mkRender v (bars p) (recording p) (isPlaying p)
    (playbackPosition p) (recordingPosition p) (metronomeEnabled p)
    (countInBars p) (isCountingIn p) (countInBar p) (isRecording p)
    (recordedHits p) (playingPads p) (audioContext p)).

Definition setBars (v : Z) : State -> State :=
  with_ui (fun p => mkRender (bpm p) v (recording p) (isPlaying p)
    (playbackPosition p) (recordingPosition p) (metronomeEnabled p)
    (countInBars p) (isCountingIn p) (countInBar p) (isRecording p)
    (recordedHits p) (playingPads p) (audioContext p)).

Definition setRecording (v : option Recording.t) : State -> State :=
  with_ui (fun p => mkRender (bpm p) (bars p) v (isPlaying p)
    (playbackPosition p) (recordingPosition p) (metronomeEnabled p)
    (countInBars p) (isCountingIn p) (countInBar p) (isRecording p)
    (recordedHits p) (playingPads p) (audioContext p)).

Definition setIsPlaying (v : bool) : State -> State :=
  with_ui (fun p => mkRender (bpm p) (bars p) (recording p) v
    (playbackPosition p) (recordingPosition p) (metronomeEnabled p)
    (countInBars p) (isCountingIn p) (countInBar p) (isRecording p)
    (recordedHits p) (playingPads p) (audioContext p)).

Definition setPlaybackPosition (v : Q) : State -> State :=
  with_ui (fun p => mkRender (bpm p) (bars p) (recording p) (isPlaying p)
    v (recordingPosition p) (metronomeEnabled p)
    (countInBars p) (isCountingIn p) (countInBar p) (isRecording p)
    (recordedHits p) (playingPads p) (audioContext p)).

Definition setRecordingPosition (v : Q) : State -> State :=
  with_ui (fun p => mkRender (bpm p) (bars p) (recording p) (isPlaying p)
    (playbackPosition p) v (metronomeEnabled p)
    (countInBars p) (isCountingIn p) (countInBar p) (isRecording p)
    (recordedHits p) (playingPads p) (audioContext p)).

Definition setMetronomeEnabled (v : bool) : State -> State :=
  with_ui (fun p => mkRender (bpm p) (bars p) (recording p) (isPlaying p)
    (playbackPosition p) (recordingPosition p) v
    (countInBars p) (isCountingIn p) (countInBar p) (isRecording p)
    (recordedHits p) (playingPads p) (audioContext p)).

Definition setCountInBars (v : Z) : State -> State :=
  with_ui (fun p => mkRender (bpm p) (bars p) (recording p) (isPlaying p)
    (playbackPosition p) (recordingPosition p) (metronomeEnabled p)
    v (isCountingIn p) (countInBar p) (isRecording p)
    (recordedHits p) (playingPads p) (audioContext p)).

Definition setIsCountingIn (v : bool) : State -> State :=
  with_ui (fun p => mkRender (bpm p) (bars p) (recording p) (isPlaying p)
    (playbackPosition p) (recordingPosition p) (metronomeEnabled p)
    (countInBars p) v (countInBar p) (isRecording p)
    (recordedHits p) (playingPads p) (audioContext p)).

Definition setCountInBar (v : Z) : State -> State :=
  with_ui (fun p => mkRender (bpm p) (bars p) (recording p) (isPlaying p)
    (playbackPosition p) (recordingPosition p) (metronomeEnabled p)
    (countInBars p) (isCountingIn p) v (isRecording p)
    (recordedHits p) (playingPads p) (audioContext p)).

Definition setIsRecording (v : bool) : State -> State :=
  with_ui (fun p => mkRender (bpm p) (bars p) (recording p) (isPlaying p)
    (playbackPosition p) (recordingPosition p) (metronomeEnabled p)
    (countInBars p) (isCountingIn p) (countInBar p) v
    (recordedHits p) (playingPads p) (audioContext p)).

Definition setRecordedHits (v : list RecordedHit) : State -> State :=
  with_ui (fun p => mkRender (bpm p) (bars p) (recording p) (isPlaying p)
    (playbackPosition p) (recordingPosition p) (metronomeEnabled p)
    (countInBars p) (isCountingIn p) (countInBar p) (isRecording p)
    v (playingPads p) (audioContext p)).

Definition setPlayingPads (v : list Z) : State -> State :=
  with_ui (fun p => mkRender (bpm p) (bars p) (recording p) (isPlaying p)
    (playbackPosition p) (recordingPosition p) (metronomeEnabled p)
    (countInBars p) (isCountingIn p) (countInBar p) (isRecording p)
    (recordedHits p) v (audioContext p)).

(** *** Assignments to the refs, the clock and the queue *)

Definition set_recordingStartTimeRef (v : Z) (s : State) : State :=
  mkState (ui s) v (countInTimeoutRef s)
    (playbackIntervalRef s) (playbackStartTimeRef s) (scheduledHitsRef s)
    (recordingIntervalRef s) (metronomeIntervalRef s) (samplerStartTimeRef s)
    (audioBuffersRef s) (now s) (timers s) (nextTimerId s) (sounds s)
    (clicks s).

Definition set_countInTimeoutRef (v : option TimerId) (s : State) : State :=
  mkState (ui s) (recordingStartTimeRef s) v
    (playbackIntervalRef s) (playbackStartTimeRef s) (scheduledHitsRef s)
    (recordingIntervalRef s) (metronomeIntervalRef s) (samplerStartTimeRef s)
    (audioBuffersRef s) (now s) (timers s) (nextTimerId s) (sounds s)
    (clicks s).

Definition set_playbackIntervalRef (v : option TimerId) (s : State) : State :=
  mkState (ui s) (recordingStartTimeRef s) (countInTimeoutRef s)
    v (playbackStartTimeRef s) (scheduledHitsRef s)
    (recordingIntervalRef s) (metronomeIntervalRef s) (samplerStartTimeRef s)
    (audioBuffersRef s) (now s) (timers s) (nextTimerId s) (sounds s)
    (clicks s).

Definition set_playbackStartTimeRef (v : Z) (s : State) : State :=
  mkState (ui s) (recordingStartTimeRef s) (countInTimeoutRef s)
    (playbackIntervalRef s) v (scheduledHitsRef s)
    (recordingIntervalRef s) (metronomeIntervalRef s) (samplerStartTimeRef s)
    (audioBuffersRef s) (now s) (timers s) (nextTimerId s) (sounds s)
    (clicks s).

Definition set_scheduledHitsRef (v : list TimerId) (s : State) : State :=
  mkState (ui s) (recordingStartTimeRef s) (countInTimeoutRef s)
    (playbackIntervalRef s) (playbackStartTimeRef s) v
    (recordingIntervalRef s) (metronomeIntervalRef s) (samplerStartTimeRef s)
    (audioBuffersRef s) (now s) (timers s) (nextTimerId s) (sounds s)
    (clicks s).

Definition set_recordingIntervalRef (v : option TimerId) (s : State) : State :=
  mkState (ui s) (recordingStartTimeRef s) (countInTimeoutRef s)
    (playbackIntervalRef s) (playbackStartTimeRef s) (scheduledHitsRef s)
    v (metronomeIntervalRef s) (samplerStartTimeRef s)
    (audioBuffersRef s) (now s) (timers s) (nextTimerId s) (sounds s)
    (clicks s).

Definition set_metronomeIntervalRef (v : option TimerId) (s : State) : State :=
  mkState (ui s) (recordingStartTimeRef s) (countInTimeoutRef s)
    (playbackIntervalRef s) (playbackStartTimeRef s) (scheduledHitsRef s)
    (recordingIntervalRef s) v (samplerStartTimeRef s)
    (audioBuffersRef s) (now s) (timers s) (nextTimerId s) (sounds s)
    (clicks s).

Definition set_samplerStartTimeRef (v : Z) (s : State) : State :=
  mkState (ui s) (recordingStartTimeRef s) (countInTimeoutRef s)
    (playbackIntervalRef s) (playbackStartTimeRef s) (scheduledHitsRef s)
    (recordingIntervalRef s) (metronomeIntervalRef s) v
    (audioBuffersRef s) (now s) (timers s) (nextTimerId s) (sounds s)
    (clicks s).

Definition set_now (v : Z) (s : State) : State :=
  mkState (ui s) (recordingStartTimeRef s) (countInTimeoutRef s)
    (playbackIntervalRef s) (playbackStartTimeRef s) (scheduledHitsRef s)
    (recordingIntervalRef s) (metronomeIntervalRef s) (samplerStartTimeRef s)
    (audioBuffersRef s) v (timers s) (nextTimerId s) (sounds s)
    (clicks s).

Definition set_timers (v : list Timer) (s : State) : State :=
  mkState (ui s) (recordingStartTimeRef s) (countInTimeoutRef s)
    (playbackIntervalRef s) (playbackStartTimeRef s) (scheduledHitsRef s)
    (recordingIntervalRef s) (metronomeIntervalRef s) (samplerStartTimeRef s)
    (audioBuffersRef s) (now s) v (nextTimerId s) (sounds s)
    (clicks s).

Definition set_nextTimerId (v : TimerId) (s : State) : State :=
  mkState (ui s) (recordingStartTimeRef s) (countInTimeoutRef s)
    (playbackIntervalRef s) (playbackStartTimeRef s) (scheduledHitsRef s)
    (recordingIntervalRef s) (metronomeIntervalRef s) (samplerStartTimeRef s)
    (audioBuffersRef s) (now s) (timers s) v (sounds s)
    (clicks s).

Definition log_sound (pad : Z) (s : State) : State :=
  mkState (ui s) (recordingStartTimeRef s) (countInTimeoutRef s)
    (playbackIntervalRef s) (playbackStartTimeRef s) (scheduledHitsRef s)
    (recordingIntervalRef s) (metronomeIntervalRef s) (samplerStartTimeRef s)
    (audioBuffersRef s) (now s) (timers s) (nextTimerId s)
    (sounds s ++ [(now s, pad)]) (clicks s).

Definition log_click (isDownbeat : bool) (s : State) : State :=
  mkState (ui s) (recordingStartTimeRef s) (countInTimeoutRef s)
    (playbackIntervalRef s) (playbackStartTimeRef s) (scheduledHitsRef s)
    (recordingIntervalRef s) (metronomeIntervalRef s) (samplerStartTimeRef s)
    (audioBuffersRef s) (now s) (timers s) (nextTimerId s)
    (sounds s) (clicks s ++ [(now s, isDownbeat)]).

(** *** Timers *)

(** The delay of a timer is an integer number of milliseconds, not below
    zero: a fractional delay is truncated. *)
Definition delayOfZ (ms : Z) : Z := Z.max 0 ms.
Definition delayOfQ (ms : Q) : Z := Z.max 0 (Qfloor ms).

Definition addTimer (p : option Z) (cb : Callback) (delay : Z) (s : State)
  : TimerId * State :=
  let id := nextTimerId s in
  let t := mkTimer id (now s + delay) p cb in
  (id, set_nextTimerId (Pos.succ id) (set_timers (timers s ++ [t]) s)).

Definition setTimeout (cb : Callback) (delay : Z) (s : State)
  : TimerId * State :=
  addTimer None cb (delayOfZ delay) s.

Definition setInterval (cb : Callback) (delay : Z) (s : State)
  : TimerId * State :=
  addTimer (Some (delayOfZ delay)) cb (delayOfZ delay) s.

Definition clearTimer (id : TimerId) (s : State) : State :=
  set_timers (filter (fun t => negb (Pos.eqb (tid t) id)) (timers s)) s.

Definition clearTimeout : TimerId -> State -> State := clearTimer.
Definition clearInterval : TimerId -> State -> State := clearTimer.

(** [Set<number>]: insertion order, no duplicate. *)
Definition Set_add {A : Type} (eqb : A -> A -> bool) (x : A) (l : list A)
  : list A :=
  if existsb (eqb x) l then l else l ++ [x].

Definition Set_delete {A : Type} (eqb : A -> A -> bool) (x : A) (l : list A)
  : list A :=
  filter (fun y => negb (eqb x y)) l.

(** ** The component [Sampler]: the capture log *)

(** [handleRecordingChange], passed to the recorder as [onRecordingChange]. *)
Definition handleRecordingChange (recording : bool) (s : State) : State :=
  let s := setIsRecording recording s in
  if recording then
    (* Start recording *)
    let s := setRecordedHits [] s in
    set_samplerStartTimeRef (now s) s
  else s.

(** [playAudio], passed to the recorder as [onPlay]; it closes over
    [audioContext] and [isRecording]. *)
Definition playAudio (c : Render) (id : Z) (s : State) : State :=
  if negb (audioContext c) then s
  else if negb (existsb (Z.eqb id) (audioBuffersRef s)) then s
  else
    let s := log_sound id s in
    let s := setPlayingPads (Set_add Z.eqb id (playingPads (ui s))) s in
    (* Record hit if recording *)
    let s :=
      if isRecording c then
        let timestamp := now s - samplerStartTimeRef s in
        setRecordedHits (recordedHits (ui s) ++ [mkHit id timestamp]) s
      else s in
    snd (setTimeout (PadRelease id) 100 s).

(** ** The component [Recorder] *)

(** [playMetronomeClick]; the audio context of the recorder is created when
    the component mounts and is taken as present. *)
Definition playMetronomeClick (c : Render) (isDownbeat : bool) (s : State)
  : State :=
  if negb (metronomeEnabled c) then s else log_click isDownbeat s.

Definition startMetronome (c : Render) (s : State) : State :=
  if negb (metronomeEnabled c) then s
  else
    let beatDuration := ((60 / inject_Z (bpm c)) * 1000)%Q in
    (* Play first click immediately *)
    let s := playMetronomeClick c true s in
    let '(id, s) := setInterval (MetronomeTick c 0) (delayOfQ beatDuration) s in
    set_metronomeIntervalRef (Some id) s.

Definition stopMetronome (s : State) : State :=
  match metronomeIntervalRef s with
  | Some id => set_metronomeIntervalRef None (clearInterval id s)
  | None => s
  end.

Definition startActualRecording (c : Render) (s : State) : State :=
  let s := handleRecordingChange true s in
  let s := set_recordingStartTimeRef (now s) s in
  (* Start metronome if enabled (and not already running from count-in) *)
  let s :=
    if metronomeEnabled c && negb (isCountingIn c) then startMetronome c s
    else s in
  (* Update recording position *)
  let duration := calculateDuration (inject_Z (bars c)) (inject_Z (bpm c)) in
  let '(id, s) := setInterval (RecordingTick c) 16 s in
  let s := set_recordingIntervalRef (Some id) s in
  (* Auto-stop after duration *)
  snd (setTimeout AutoStop (delayOfQ duration) s).

Definition clearRecordingInterval (s : State) : State :=
  match recordingIntervalRef s with
  | Some id => set_recordingIntervalRef None (clearInterval id s)
  | None => s
  end.

Definition clearCountInTimeout (s : State) : State :=
  match countInTimeoutRef s with
  | Some id => set_countInTimeoutRef None (clearTimeout id s)
  | None => s
  end.

(** [handleRecord]: the record button. *)
Definition handleRecord (c : Render) (s : State) : State :=
  if isRecording c || isCountingIn c then
    (* Stop recording or count-in *)
    if isCountingIn c then
      let s := setIsCountingIn false s in
      let s := stopMetronome s in
      clearCountInTimeout s
    else
      let s := handleRecordingChange false s in
      let s := stopMetronome s in
      let s := setRecordingPosition 0 s in
      let s := clearRecordingInterval s in
      let duration := calculateDuration (inject_Z (bars c)) (inject_Z (bpm c)) in
      let newRecording :=
        Recording.mk (recordedHits c) (bars c) (bpm c) duration in
      setRecording (Some newRecording) s
  else
    (* Start recording (with optional count-in) *)
    let s := setRecording None s in
    let s := setIsPlaying false s in
    let s := setRecordingPosition 0 s in
    if 0 <? countInBars c then
      (* Start count-in *)
      let s := setIsCountingIn true s in
      let s := setCountInBar 1 s in
      (* Start metronome for count-in *)
      let s := if metronomeEnabled c then startMetronome c s else s in
      (* Update count-in bar display *)
      let barDuration := ((60 / inject_Z (bpm c)) * 4 * 1000)%Q in
      let '(barInterval, s) :=
        setInterval (BarAdvance c 1) (delayOfQ barDuration) s in
      (* Start actual recording after count-in *)
      let countInDuration :=
        calculateDuration (inject_Z (countInBars c)) (inject_Z (bpm c)) in
      let '(id, s) :=
        setTimeout (CountInDone c barInterval) (delayOfQ countInDuration) s in
      set_countInTimeoutRef (Some id) s
    else
      (* Start recording immediately (no count-in) *)
      startActualRecording c s.

Definition stopPlayback (s : State) : State :=
  let s := setIsPlaying false s in
  let s := setPlaybackPosition 0 s in
  let s := stopMetronome s in
  let s :=
    match playbackIntervalRef s with
    | Some id => set_playbackIntervalRef None (clearInterval id s)
    | None => s
    end in
  (* Cancel any scheduled hits *)
  let s :=
    fold_left (fun s timeoutId => clearTimeout timeoutId s)
      (scheduledHitsRef s) s in
  set_scheduledHitsRef [] s.

Definition scheduleHit (c : Render) (s : State) (hit : RecordedHit) : State :=
  let '(timeoutId, s) := setTimeout (HitTrigger c hit) (timestamp hit) s in
  set_scheduledHitsRef (Set_add Pos.eqb timeoutId (scheduledHitsRef s)) s.

Definition startPlayback (c : Render) (s : State) : State :=
  match recording c with
  | None => s
  | Some r =>
    match Recording.hits r with
    | [] => s
    | _ :: _ =>
      let s := setIsPlaying true s in
      let s := set_playbackStartTimeRef (now s) s in
      let s := set_scheduledHitsRef [] s in
      (* Start metronome if enabled *)
      let s := if metronomeEnabled c then startMetronome c s else s in
      (* Schedule all hits *)
      let s := fold_left (scheduleHit c) (Recording.hits r) s in
      (* Update playback position *)
      let '(id, s) := setInterval (PlaybackTick c r) 16 s in
      set_playbackIntervalRef (Some id) s
    end
  end.

Definition handlePlayStop (c : Render) (s : State) : State :=
  if isPlaying c then stopPlayback s else startPlayback c s.

Definition handleClear (s : State) : State :=
  let s := stopPlayback s in
  let s := stopMetronome s in
  let s := setRecording None s in
  let s := setRecordingPosition 0 s in
  let s := setIsCountingIn false s in
  let s := clearCountInTimeout s in
  handleRecordingChange false s.

(** *** The bodies of the deferred callbacks

    [self] is the handle of the timer that runs. *)
Definition runCallback (self : TimerId) (cb : Callback) (s : State) : State :=
  match cb with
  | MetronomeTick c n =>
      let beatCount := n + 1 in
      let isDownbeat := Z.rem beatCount 4 =? 0 in
      playMetronomeClick c isDownbeat s
  | BarAdvance c n =>
      let currentBar := n + 1 in
      if currentBar <=? countInBars c then setCountInBar currentBar s
      else clearInterval self s
  | CountInDone c barInterval =>
      let s := clearInterval barInterval s in
      let s := setIsCountingIn false s in
      startActualRecording c s
  | RecordingTick c =>
      let duration := calculateDuration (inject_Z (bars c)) (inject_Z (bpm c)) in
      let elapsed := now s - recordingStartTimeRef s in
      let position := positionAt (inject_Z elapsed) duration in
      setRecordingPosition position s
  | AutoStop =>
      let s := handleRecordingChange false s in
      let s := stopMetronome s in
      let s := setRecordingPosition 0 s in
      clearRecordingInterval s
  | HitTrigger c hit =>
      let s := playAudio c (padId hit) s in
      set_scheduledHitsRef (Set_delete Pos.eqb self (scheduledHitsRef s)) s
  | PlaybackTick c r =>
      let elapsed := now s - playbackStartTimeRef s in
      let position := positionAt (inject_Z elapsed) (Recording.duration r) in
      let s := setPlaybackPosition position s in
      if Qle_bool 1 position then
        (* Loop playback *)
        let s := stopPlayback s in
        snd (setTimeout (LoopRestart c) 50 s)
      else s
  | LoopRestart c => startPlayback c s
  | PadRelease id =>
      setPlayingPads (Set_delete Z.eqb id (playingPads (ui s))) s
  end.

(** A timeout leaves the queue when it runs; an interval is queued again one
    period later, with its local counter advanced. *)
Definition bump (cb : Callback) : Callback :=
  match cb with
  | MetronomeTick c n => MetronomeTick c (n + 1)
  | BarAdvance c n => BarAdvance c (n + 1)
  | _ => cb
  end.

Definition requeue (t : Timer) (s : State) : State :=
  let s := clearTimer (tid t) s in
  match period t with
  | None => s
  | Some p =>
      let t' := mkTimer (tid t) (now s + p) (Some p) (bump (callback t)) in
      set_timers (timers s ++ [t']) s
  end.

Definition fire (t : Timer) (s : State) : State :=
  runCallback (tid t) (callback t) (requeue t s).

(** ** The controls of the recorder and the pads *)

Inductive BarsChoice : Type := Bars8 | Bars16.
Inductive CountInChoice : Type := CountInOff | CountIn1 | CountIn2.

Inductive UserEvent : Type :=
| ClickRecord
| ClickPlay
| ClickClear
| ChangeBpm (parsed : option Z)     (* [parseInt]; [None] for [NaN] *)
| ClickBars (b : BarsChoice)
| ToggleMetronome (checked : bool)
| ClickCountIn (n : CountInChoice)
| PadHit (id : Z).

Definition hasPlayableRecording (p : Render) : bool :=
  match recording p with
  | None => false
  | Some r => negb (Nat.eqb (length (Recording.hits r)) 0)
  end.

(** The [disabled] attributes of the controls. *)
Definition disabled (e : UserEvent) (p : Render) : bool :=
  match e with
  | ClickRecord => isPlaying p
  | ClickPlay => isRecording p || isCountingIn p || negb (hasPlayableRecording p)
  | ClickClear | ChangeBpm _ | ClickBars _ | ToggleMetronome _
  | ClickCountIn _ => isRecording p || isPlaying p || isCountingIn p
  | PadHit _ => false
  end.

Definition handle (e : UserEvent) (s : State) : State :=
  let c := ui s in    (* the handlers of the latest render *)
  match e with
  | ClickRecord => handleRecord c s
  | ClickPlay => handlePlayStop c s
  | ClickClear => handleClear s
  | ChangeBpm parsed =>
      let v := match parsed with
               | Some n => if n =? 0 then 120 else n
               | None => 120
               end in
      setBpm (Z.max 60 (Z.min 200 v)) s
  | ClickBars b => setBars (match b with Bars8 => 8 | Bars16 => 16 end) s
  | ToggleMetronome checked => setMetronomeEnabled checked s
  | ClickCountIn n =>
      setCountInBars
        (match n with CountInOff => 0 | CountIn1 => 1 | CountIn2 => 2 end) s
  | PadHit id => playAudio c id s
  end.

Definition dispatch (e : UserEvent) (s : State) : State :=
  if disabled e (ui s) then s else handle e s.

(** The components once mounted, with the ten default sounds loaded. *)
Definition initialRender : Render :=
  mkRender 120 8 None false 0 0 false 0 false 0 false [] [] true.

Definition initialState : State :=
  mkState initialRender 0 None None 0 [] None None 0
    [0; 1; 2; 3; 4; 5; 6; 7; 8; 9] 0 [] 1%positive [] [].

(** ** Executions

    One thread runs the handlers and the callbacks one after the other.  A
    callback runs no earlier than its due time and may run later; a user
    event is taken at the current clock. *)
Inductive step : State -> State -> Prop :=
| step_user (e : UserEvent) (s : State) :
    disabled e (ui s) = false -> step s (handle e s)
| step_fire (t : Timer) (s : State) :
    In t (timers s) -> due t <= now s -> step s (fire t s)
| step_wait (t : Z) (s : State) :
    now s <= t -> step s (set_now t s).

(** Zero or more steps of a relation, the last step last. *)
Inductive star {A : Type} (R : A -> A -> Prop) (x : A) : A -> Prop :=
| star_refl : star R x x
| star_snoc (y z : A) : star R x y -> R y z -> star R x z.

Definition steps : State -> State -> Prop := star step.
Definition reachable (s : State) : Prop := steps initialState s.

(** Executions in which the user does nothing: only callbacks and time. *)
Inductive tstep : State -> State -> Prop :=
| tstep_fire (t : Timer) (s : State) :
    In t (timers s) -> due t <= now s -> tstep s (fire t s)
| tstep_wait (t : Z) (s : State) :
    now s <= t -> tstep s (set_now t s).

Definition tsteps : State -> State -> Prop := star tstep.

(** Executions in which the user does nothing but play pads. *)
Inductive lstep : State -> State -> Prop :=
| lstep_fire (t : Timer) (s : State) :
    In t (timers s) -> due t <= now s -> lstep s (fire t s)
| lstep_wait (t : Z) (s : State) :
    now s <= t -> lstep s (set_now t s)
| lstep_pad (id : Z) (s : State) :
    lstep s (handle (PadHit id) s).

Definition lsteps : State -> State -> Prop := star lstep.

(** Punctual executions: the user at most plays pads, and the clock never
    passes the due time of a pending callback, so that every callback runs
    at its due time. *)
Inductive pstep : State -> State -> Prop :=
| pstep_fire (t : Timer) (s : State) :
    In t (timers s) -> due t <= now s -> pstep s (fire t s)
| pstep_wait (t : Z) (s : State) :
    now s <= t -> (forall u : Timer, In u (timers s) -> t <= due u) ->
    pstep s (set_now t s)
| pstep_pad (id : Z) (s : State) :
    pstep s (handle (PadHit id) s).

Definition psteps : State -> State -> Prop := star pstep.

(** *** A scheduler for concrete runs

    [Elapse t] lets the clock reach [t] and runs every callback at its due
    time, the earliest first and, among callbacks due together, the one
    created first.  [Stall t] lets the clock reach [t] while no callback
    runs (the thread is busy): callbacks become late.  [User e] is a user
    event at the current clock. *)
Definition earlier (a b : Timer) : bool :=
  (due a <? due b) || ((due a =? due b) && Pos.leb (tid a) (tid b)).

Fixpoint nextTimer (l : list Timer) : option Timer :=
  match l with
  | [] => None
  | t :: l' =>
      match nextTimer l' with
      | Some u => if earlier t u then Some t else Some u
      | None => Some t
      end
  end.

Fixpoint elapse (fuel : nat) (t : Z) (s : State) : option State :=
  match nextTimer (timers s) with
  | Some tm =>
      if due tm <=? t then
        match fuel with
        | O => None
        | S fuel' =>
            elapse fuel' t (fire tm (set_now (Z.max (now s) (due tm)) s))
        end
      else Some (set_now (Z.max (now s) t) s)
  | None => Some (set_now (Z.max (now s) t) s)
  end.

(** The same run, given up (with [None]) as soon as a pending callback is
    overdue: a run that succeeds is punctual. *)
Definition noneOverdue (s : State) : bool :=
  forallb (fun u => now s <=? due u) (timers s).

Fixpoint elapseOnTime (fuel : nat) (t : Z) (s : State) : option State :=
  if noneOverdue s then
    match nextTimer (timers s) with
    | Some tm =>
        if due tm <=? t then
          match fuel with
          | O => None
          | S fuel' => elapseOnTime fuel' t (fire tm (set_now (due tm) s))
          end
        else Some (set_now (Z.max (now s) t) s)
    | None => Some (set_now (Z.max (now s) t) s)
    end
  else None.

Inductive Action : Type :=
| User (e : UserEvent)
| Elapse (t : Z)
| Stall (t : Z).

Fixpoint play (fuel : nat) (script : list Action) (s : State)
  : option State :=
  match script with
  | [] => Some s
  | User e :: script' => play fuel script' (dispatch e s)
  | Elapse t :: script' =>
      match elapse fuel t s with
      | Some s' => play fuel script' s'
      | None => None
      end
  | Stall t :: script' => play fuel script' (set_now (Z.max (now s) t) s)
  end.

(** ** Observations on an execution *)

Definition isMetronomeTick (t : Timer) : bool :=
  match callback t with MetronomeTick _ _ => true | _ => false end.
Definition isBarAdvance (t : Timer) : bool :=
  match callback t with BarAdvance _ _ => true | _ => false end.
Definition isCountInDone (t : Timer) : bool :=
  match callback t with CountInDone _ _ => true | _ => false end.
Definition isAutoStop (t : Timer) : bool :=
  match callback t with AutoStop => true | _ => false end.
Definition isHitTrigger (t : Timer) : bool :=
  match callback t with HitTrigger _ _ => true | _ => false end.
Definition isPlaybackTick (t : Timer) : bool :=
  match callback t with PlaybackTick _ _ => true | _ => false end.
Definition isLoopRestart (t : Timer) : bool :=
  match callback t with LoopRestart _ => true | _ => false end.
Definition isPadRelease (t : Timer) : bool :=
  match callback t with PadRelease _ => true | _ => false end.

(** The handles and due times of the pending callbacks of one sort. *)
Definition pending (sort : Timer -> bool) (s : State) : list (TimerId * Z) :=
  map (fun t => (tid t, due t)) (filter sort (timers s)).

Definition hitsOfRecording (s : State) : option (list RecordedHit) :=
  option_map Recording.hits (recording (ui s)).

(** The clicks and the pad sounds heard from clock [t] on. *)
Definition clicksFrom (t : Z) (s : State) : list (Z * bool) :=
  filter (fun c => t <=? fst c) (clicks s).
Definition soundsFrom (t : Z) (s : State) : list (Z * Z) :=
  filter (fun c => t <=? fst c) (sounds s).

(** *** Scenarios *)

(** Record at 0 (8 bars, 120 bpm, no count-in), stop by hand at 1000 ms,
    record again at 2000 ms. *)
Definition earlyStop : list Action :=
  [User ClickRecord; Elapse 1000; User ClickRecord].
Definition earlyStopThenRecord : list Action :=
  earlyStop ++ [Elapse 2000; User ClickRecord].

(** Record two hits, at 0 and 500 ms, stop by hand at 1000 ms, and press
    play at 20000 ms. *)
Definition recordTwoHits : list Action :=
  [User ClickRecord; User (PadHit 0); Elapse 500; User (PadHit 1);
   Elapse 1000; User ClickRecord; Elapse 20000].
Definition playTwoHits : list Action := recordTwoHits ++ [User ClickPlay].

(** Metronome on, count-in of [n] bars, record at 0. *)
Definition countIn (n : CountInChoice) : list Action :=
  [User (ToggleMetronome true); User (ClickCountIn n); User ClickRecord].

(** A hit and a manual stop at the instant the window closes, both taken
    before the auto-stop callback runs. *)
Definition hitAtWindowEnd : list Action :=
  [User ClickRecord; Stall 16000; User (PadHit 0); User ClickRecord].

(** *** Statements of the specification, as predicates *)

(** A gap between two triggers is within [window] ms of [durationMs]. *)
Definition withinWindow (window : Z) (durationMs : Q) (gap : Z) : Prop :=
  (Qabs (inject_Z gap - durationMs) <= inject_Z window)%Q.

(** The core itself rejects a record command in the Playing mode. *)
Definition recordRejectedByCore (s : State) : Prop :=
  isPlaying (ui s) = true ->
  isPlaying (ui (handleRecord (ui s) s)) = true
  /\ isRecording (ui (handleRecord (ui s) s)) = false
  /\ recording (ui (handleRecord (ui s) s)) = recording (ui s).

(** Every hit of a recording lies before the end of its window. *)
Definition hitsWithinWindow (r : Recording.t) : Prop :=
  Forall (fun h => (inject_Z (timestamp h) < Recording.duration r)%Q)
         (Recording.hits r).

(** One second into the playback of the two recorded hits. *)
Definition playingState : State :=
  Eval vm_compute in
    match play 2000 (playTwoHits ++ [Elapse 21000]) initialState with
    | Some s => s
    | None => initialState
    end.

(** One second into a recording cycle, two hits captured. *)
Definition captureTwoHits : list Action :=
  [User ClickRecord; User (PadHit 0); Elapse 500; User (PadHit 1);
   Elapse 1000].
Definition recordingState : State :=
  Eval vm_compute in
    match play 2000 captureTwoHits initialState with
    | Some s => s
    | None => initialState
    end.

(** The two hits recorded and the cycle stopped by hand at 1000 ms, the
    metronome switched on: ready to play at 5000 ms, while the auto-stop of
    the cycle is still pending. *)
Definition readyToPlay : State :=
  Eval vm_compute in
    match play 2000 (captureTwoHits
                     ++ [User ClickRecord; User (ToggleMetronome true);
                         Elapse 5000])
            initialState with
    | Some s => s
    | None => initialState
    end.

(** A quarter of a second into the first iteration: the trigger of the
    second hit, the position interval and the metronome are pending. *)
Definition midLoop : State :=
  Eval vm_compute in
    match elapse 2000 5250 (startPlayback (ui readyToPlay) readyToPlay) with
    | Some s => s
    | None => initialState
    end.

(** The second iteration has just begun. *)
Definition secondIteration : State :=
  Eval vm_compute in
    match elapse 2000 21050 (startPlayback (ui readyToPlay) readyToPlay) with
    | Some s => s
    | None => initialState
    end.

(** What the render shows: [currentPosition] and the bar and beat. *)
Definition currentPosition (p : Render) : Q :=
  if isRecording p then recordingPosition p
  else if isPlaying p then playbackPosition p else 0.

Definition currentBarAndBeat (p : Render) : BarBeat :=
  if isRecording p || isPlaying p
  then getCurrentBarAndBeat (bars p) (currentPosition p)
  else {| bar := 1; beat := 1 |}.

(** ** Invariants *)

(** What the capture log is made of. *)
Definition capture (s : State) : Z * Z * list RecordedHit :=
  (samplerStartTimeRef s, now s, recordedHits (ui s)).

(** Every captured hit has an offset between zero and the time elapsed
    since the cycle began. *)
Definition hitsBounded (s : State) : Prop :=
  samplerStartTimeRef s <= now s
  /\ Forall (fun h => 0 <= timestamp h <= now s - samplerStartTimeRef s)
            (recordedHits (ui s)).

(** Callbacks that neither play a pad nor click nor touch the playback
    refs: a pad release, a leftover auto-stop, a leftover bar interval. *)
Definition isBenign (t : Timer) : bool :=
  match callback t with
  | PadRelease _ | AutoStop | BarAdvance _ _ => true
  | _ => false
  end.

(** No other callback is pending. *)
Definition quiet (s : State) : Prop :=
  forall t : Timer, In t (timers s) -> isBenign t = true.

(** *** The playback loop left to itself

    [c] is what the play handler closed over, [r] its recording and [t0]
    the clock when playback began. *)
Section PlaybackLoop.

Variable c : Render.
Variable r : Recording.t.
Variable t0 : Z.

(** A pending callback of the iteration in progress is tracked: a trigger
    by [scheduledHitsRef], the position interval by [playbackIntervalRef],
    the metronome interval by [metronomeIntervalRef]. *)
Definition tracked (s : State) (t : Timer) : Prop :=
  match callback t with
  | HitTrigger _ h =>
      period t = None
      /\ In (tid t) (scheduledHitsRef s)
      /\ due t = playbackStartTimeRef s + delayOfZ (timestamp h)
  | PlaybackTick c' r' =>
      c' = c /\ r' = r /\ playbackIntervalRef s = Some (tid t)
  | MetronomeTick _ _ => metronomeIntervalRef s = Some (tid t)
  | PadRelease _ | AutoStop | BarAdvance _ _ => True
  | _ => False
  end.

(** Between two iterations the only callback of the loop is the restart,
    due no earlier than 50 ms after the end of the first window. *)
Definition settlingTimer (rid : TimerId) (t : Timer) : Prop :=
  match callback t with
  | LoopRestart c' =>
      c' = c /\ period t = None /\ tid t = rid
      /\ (inject_Z t0 + Recording.duration r + 50 <= inject_Z (due t))%Q
  | PadRelease _ | AutoStop | BarAdvance _ _ => True
  | _ => False
  end.

(** The anchor of the iteration is [t0] or lies at least one window and
    50 ms after it. *)
Definition anchored (s : State) : Prop :=
  playbackStartTimeRef s <= now s
  /\ (playbackStartTimeRef s = t0
      \/ (inject_Z t0 + Recording.duration r + 50
          <= inject_Z (playbackStartTimeRef s))%Q).

Definition looping (s : State) : Prop :=
  anchored s
  /\ ((isPlaying (ui s) = true
       /\ forall t : Timer, In t (timers s) -> tracked s t)
      \/ (isPlaying (ui s) = false
          /\ exists rid : TimerId,
               forall t : Timer, In t (timers s) -> settlingTimer rid t)).

(** The time from one anchor to the next when every callback is on time:
    the window rounded up to a whole number of 16 ms position ticks, plus
    the settling delay. *)
Definition loopPeriod : Z := 16 * Qceiling (Recording.duration r / 16) + 50.

(** No pending callback is overdue, and no interval has a negative
    period. *)
Definition onTime (s : State) : Prop :=
  forall u : Timer,
    In u (timers s) ->
    now s <= due u /\ (forall p : Z, period u = Some p -> 0 <= p).

(** In a punctual execution the anchor is a whole number of loop periods
    after [t0]; the position interval is due a whole number of ticks after
    the anchor, the window not yet over at the tick before; the restart is
    due one loop period after the anchor. *)
Definition pacedTimer (anchor : Z) (u : Timer) : Prop :=
  match callback u with
  | PlaybackTick _ _ =>
      period u = Some 16
      /\ exists j : Z,
           1 <= j
           /\ due u = anchor + 16 * j
           /\ (inject_Z (16 * (j - 1)) < Recording.duration r)%Q
  | LoopRestart _ => due u = anchor + loopPeriod
  | _ => True
  end.

Definition paced (s : State) : Prop :=
  onTime s
  /\ (exists k : Z, 0 <= k /\ playbackStartTimeRef s = t0 + k * loopPeriod)
  /\ (forall u : Timer,
         In u (timers s) -> pacedTimer (playbackStartTimeRef s) u).

End PlaybackLoop.
(** ** Theorems on the tempo clock *)

Lemma calculateDuration_formula (b p : Q) :
  ~ (p == 0)%Q -> (calculateDuration b p == TempoSpec.durationMs b p)%Q.
Proof.
  intros Hp. unfold calculateDuration, TempoSpec.durationMs. field. exact Hp.
Qed.



Lemma positionAt_nonneg (e t : Q) :
  (0 <= e)%Q -> (0 < t)%Q -> (0 <= positionAt e t)%Q.
Proof.
  intros He Ht. unfold positionAt, Math.min.
  apply Q.min_glb; [| discriminate].
  apply Qle_shift_div_l; [exact Ht |]. now rewrite Qmult_0_l.
Qed.

Lemma floor_quarter (n : Z) : Math.floor (inject_Z n / 4) = n / 4.
Proof.
  unfold Math.floor, Qdiv, Qmult, Qinv, inject_Z, Qfloor; simpl.
  now rewrite Z.mul_1_r.
Qed.



(** ** Executions: the scheduler follows the step relation *)

Lemma star_trans {A : Type} (R : A -> A -> Prop) (a b c : A) :
  star R a b -> star R b c -> star R a c.
Proof.
  intros Hab Hbc. induction Hbc as [| y z _ IH Hyz]; [exact Hab |].
  eapply star_snoc; eassumption.
Qed.

Lemma steps_trans (a b c : State) : steps a b -> steps b c -> steps a c.
Proof. apply star_trans. Qed.

Lemma steps_one (a b : State) : step a b -> steps a b.
Proof. intros H. eapply star_snoc; [apply star_refl | exact H]. Qed.

Lemma nextTimer_In (l : list Timer) (t : Timer) :
  nextTimer l = Some t -> In t l.
Proof.
  revert t. induction l as [| a l IH]; simpl; intros t H; [discriminate |].
  destruct (nextTimer l) as [u |].
  - destruct (earlier a u); inversion H; subst; auto.
  - inversion H; auto.
Qed.

Lemma elapse_steps (fuel : nat) (t : Z) (s s' : State) :
  elapse fuel t s = Some s' -> steps s s'.
Proof.
  revert s. induction fuel as [| fuel IH]; intros s; simpl.
  - destruct (nextTimer (timers s)) as [tm |].
    + destruct (due tm <=? t); [discriminate |].
      intros H; inversion H; subst. apply steps_one, step_wait. lia.
    + intros H; inversion H; subst. apply steps_one, step_wait. lia.
  - destruct (nextTimer (timers s)) as [tm |] eqn:Hn.
    + destruct (due tm <=? t).
      * intros H. apply IH in H.
        eapply steps_trans; [| exact H].
        eapply steps_trans.
        -- apply steps_one. apply (step_wait (Z.max (now s) (due tm))). lia.
        -- apply steps_one. apply step_fire.
           ++ simpl. now apply nextTimer_In.
           ++ simpl. lia.
      * intros H; inversion H; subst. apply steps_one, step_wait. lia.
    + intros H; inversion H; subst. apply steps_one, step_wait. lia.
Qed.

Lemma dispatch_steps (e : UserEvent) (s : State) : steps s (dispatch e s).
Proof.
  unfold dispatch. destruct (disabled e (ui s)) eqn:Hd.
  - apply star_refl.
  - apply steps_one. now apply step_user.
Qed.

Lemma play_steps (fuel : nat) (script : list Action) (s s' : State) :
  play fuel script s = Some s' -> steps s s'.
Proof.
  revert s. induction script as [| a script IH]; intros s; simpl.
  - intros H; inversion H; subst. apply star_refl.
  - destruct a as [e | t | t].
    + intros H. eapply steps_trans; [apply (dispatch_steps e s) | apply IH; exact H].
    + destruct (elapse fuel t s) as [s1 |] eqn:He; [| discriminate].
      intros H. eapply steps_trans; [eapply elapse_steps; exact He |].
      now apply IH.
    + intros H. eapply steps_trans; [| apply IH; exact H].
      apply steps_one, step_wait. lia.
Qed.

(** ** Playing an empty or absent recording *)

(** C10: starting playback with no recording, or with a recording that has
    no hit, changes nothing: no Playing mode, no trigger, no position
    interval. *)
Theorem startPlayback_empty_is_noop (c : Render) (s : State) :
  hasPlayableRecording c = false ->
  startPlayback c s = s
  /\ (isPlaying c = false -> handlePlayStop c s = s)
  /\ isPlaying (ui (startPlayback c s)) = isPlaying (ui s)
  /\ timers (startPlayback c s) = timers s.
Proof.
  intros H.
  assert (E : startPlayback c s = s).
  { unfold startPlayback, hasPlayableRecording in *.
    destruct (recording c) as [r |]; [| reflexivity].
    destruct (Recording.hits r); [reflexivity | discriminate]. }
  repeat split.
  - exact E.
  - intros Hp. unfold handlePlayStop. now rewrite Hp.
  - now rewrite E.
  - now rewrite E.
Qed.

Lemma startPlayback_empty_is_noop_witness :
  let c := mkRender 120 8 (Some (Recording.mk [] 8 120 16000)) false 0 0
             false 0 false 0 false [] [] true in
  startPlayback c initialState = initialState
  /\ (isPlaying c = false -> handlePlayStop c initialState = initialState)
  /\ isPlaying (ui (startPlayback c initialState))
     = isPlaying (ui initialState)
  /\ timers (startPlayback c initialState) = timers initialState.
Proof.
  intros c. apply (startPlayback_empty_is_noop c initialState). reflexivity.
Defined.

(** ** Cancellation of deferred callbacks *)

(** C2: the handle of the auto-stop timeout and the handle of the loop
    restart timeout are kept nowhere, so no path cancels them.  After a
    manual stop at 1000 ms the auto-stop of that cycle stays queued for
    16000 ms and ends the cycle started at 2000 ms two seconds early; after
    [clear] during the settling delay the restart runs and plays the
    cleared recording. *)
Theorem stale_callbacks_run_in_later_cycle :
  option_map (fun s => (isRecording (ui s), pending isAutoStop s))
    (play 2000 earlyStop initialState)
  = Some (false, [(2%positive, 16000)])
  /\ option_map (fun s => (isRecording (ui s), now s - recordingStartTimeRef s,
                           pending isAutoStop s))
       (play 2000 (earlyStopThenRecord ++ [Elapse 15999]) initialState)
     = Some (true, 13999, [(2%positive, 16000); (4%positive, 18000)])
  /\ option_map (fun s => (isRecording (ui s), now s - recordingStartTimeRef s,
                           hitsOfRecording s))
       (play 2000 (earlyStopThenRecord ++ [Elapse 16000]) initialState)
     = Some (false, 14000, None)
  /\ option_map (fun s => (isPlaying (ui s), pending isLoopRestart s))
       (play 2000 (playTwoHits ++ [Elapse 36020]) initialState)
     = Some (false, [(10%positive, 36050)])
  /\ option_map (fun s => (isPlaying (ui s), hitsOfRecording s,
                           pending isLoopRestart s))
       (play 2000 (playTwoHits ++ [Elapse 36020; User ClickClear])
          initialState)
     = Some (false, None, [(10%positive, 36050)])
  /\ option_map (fun s => (isPlaying (ui s), hitsOfRecording s,
                           soundsFrom 36020 s))
       (play 2000 (playTwoHits ++ [Elapse 36020; User ClickClear;
                                   Elapse 36600])
          initialState)
     = Some (true, None, [(36050, 0); (36550, 1)]).
Proof. repeat split; vm_compute; reflexivity. Qed.

(** ** Metronome *)

(** C8: with the metronome on and a count-in of one bar at 120 bpm, the
    count-in starts a click interval at 0 and the hand-over to recording at
    2000 ms starts a second one.  Two intervals are then pending, each
    click is heard twice, and the stop at the end of the window clears only
    the second: the first keeps clicking. *)
Theorem metronome_started_twice_after_count_in :
  option_map (fun s => (pending isMetronomeTick s, metronomeIntervalRef s))
    (play 2000 (countIn CountIn1 ++ [Elapse 1999]) initialState)
  = Some ([(1%positive, 2000)], Some 1%positive)
  /\ option_map (fun s => (isRecording (ui s), pending isMetronomeTick s,
                           metronomeIntervalRef s, clicksFrom 2000 s))
       (play 2000 (countIn CountIn1 ++ [Elapse 2500]) initialState)
     = Some (true, [(1%positive, 3000); (4%positive, 3000)],
             Some 4%positive,
             [(2000, true); (2000, true); (2500, false); (2500, false)])
  /\ option_map (fun s => (isRecording (ui s), pending isMetronomeTick s,
                           metronomeIntervalRef s, clicksFrom 18001 s))
       (play 2000 (countIn CountIn1 ++ [Elapse 19000]) initialState)
     = Some (false, [(1%positive, 19500)], None,
             [(18500, false); (19000, false)]).
Proof. repeat split; vm_compute; reflexivity. Qed.

(** ** Count-in *)

(** C9: a count-in of two bars at 120 bpm cancelled at 1000 ms.  The
    transport is idle again, no recording exists, the metronome interval
    and the count-in timeout are cleared; the bar interval is not: it is
    still pending, runs at 2000 ms and moves the bar counter to 2. *)
Theorem count_in_cancel_leaves_bar_interval :
  option_map (fun s => (isCountingIn (ui s), isRecording (ui s),
                        isPlaying (ui s), hitsOfRecording s,
                        pending isMetronomeTick s, pending isCountInDone s,
                        countInBar (ui s), pending isBarAdvance s))
    (play 2000 (countIn CountIn2 ++ [Elapse 1000; User ClickRecord])
       initialState)
  = Some (false, false, false, None, [], [], 1, [(2%positive, 2000)])
  /\ option_map (fun s => (countInBar (ui s), pending isBarAdvance s,
                           clicksFrom 1001 s))
       (play 2000 (countIn CountIn2 ++ [Elapse 1000; User ClickRecord;
                                        Elapse 2000])
          initialState)
     = Some (2, [(2%positive, 4000)], [])
  /\ option_map (fun s => pending isBarAdvance s)
       (play 2000 (countIn CountIn2 ++ [Elapse 1000; User ClickRecord;
                                        Elapse 4000])
          initialState)
     = Some [].
Proof. repeat split; vm_compute; reflexivity. Qed.

(** ** Record while playing *)




(** ** The capture log along an execution *)

Ltac case_conds :=
  repeat match goal with
         | |- context [if ?b then _ else _] => destruct b
         | |- context [match ?x with Some _ => _ | None => _ end] =>
             destruct x
         end.

Lemma capture_setRecording (v : option Recording.t) (s : State) :
  capture (setRecording v s) = capture s.
Proof. reflexivity. Qed.

Lemma capture_setRecordingPosition (v : Q) (s : State) :
  capture (setRecordingPosition v s) = capture s.
Proof. reflexivity. Qed.

Lemma capture_setIsCountingIn (v : bool) (s : State) :
  capture (setIsCountingIn v s) = capture s.
Proof. reflexivity. Qed.

Lemma capture_setTimeout (cb : Callback) (d : Z) (s : State) :
  capture (snd (setTimeout cb d s)) = capture s.
Proof. reflexivity. Qed.

Lemma capture_stopMetronome (s : State) :
  capture (stopMetronome s) = capture s.
Proof. unfold stopMetronome. now case_conds. Qed.

Lemma capture_startMetronome (c : Render) (s : State) :
  capture (startMetronome c s) = capture s.
Proof. unfold startMetronome, playMetronomeClick. now case_conds. Qed.

Lemma capture_clearRecordingInterval (s : State) :
  capture (clearRecordingInterval s) = capture s.
Proof. unfold clearRecordingInterval. now case_conds. Qed.

Lemma capture_clearCountInTimeout (s : State) :
  capture (clearCountInTimeout s) = capture s.
Proof. unfold clearCountInTimeout. now case_conds. Qed.

Lemma capture_clear_all (ids : list TimerId) (s : State) :
  capture (fold_left (fun s id => clearTimeout id s) ids s) = capture s.
Proof.
  revert s. induction ids as [| id ids IH]; intros s; simpl; [reflexivity |].
  now rewrite IH.
Qed.

Lemma capture_stopPlayback (s : State) :
  capture (stopPlayback s) = capture s.
Proof.
  unfold stopPlayback.
  change (capture (set_scheduledHitsRef [] ?x)) with (capture x).
  rewrite capture_clear_all.
  destruct (playbackIntervalRef _);
    change (capture (set_playbackIntervalRef None (clearInterval ?i ?x)))
      with (capture x);
    now rewrite capture_stopMetronome.
Qed.

Lemma capture_scheduleHits (c : Render) (hs : list RecordedHit) (s : State) :
  capture (fold_left (scheduleHit c) hs s) = capture s.
Proof.
  revert s. induction hs as [| h hs IH]; intros s; simpl; [reflexivity |].
  now rewrite IH.
Qed.

Lemma capture_startPlayback (c : Render) (s : State) :
  capture (startPlayback c s) = capture s.
Proof.
  unfold startPlayback.
  destruct (recording c) as [r |]; [| reflexivity].
  destruct (Recording.hits r) as [| h hs] eqn:Hh; [reflexivity |].
  cbv zeta. rewrite <- Hh.
  match goal with
  | |- capture (let '(id, s1) := setInterval ?cb ?d ?x in _) = _ =>
      change (capture x = capture s)
  end.
  rewrite capture_scheduleHits.
  destruct (metronomeEnabled c); [now rewrite capture_startMetronome |];
    reflexivity.
Qed.

Lemma hitsBounded_capture (s s' : State) :
  capture s' = capture s -> hitsBounded s -> hitsBounded s'.
Proof.
  unfold capture, hitsBounded. intros E H.
  injection E as E1 E2 E3. now rewrite E1, E2, E3.
Qed.

Lemma hitsBounded_handleRecordingChange (b : bool) (s : State) :
  hitsBounded s -> hitsBounded (handleRecordingChange b s).
Proof.
  intros H. destruct b; [| exact H].
  unfold hitsBounded, handleRecordingChange; simpl. split; [lia | constructor].
Qed.

Lemma hitsBounded_playAudio (c : Render) (id : Z) (s : State) :
  hitsBounded s -> hitsBounded (playAudio c id s).
Proof.
  intros [H1 H2]. unfold playAudio.
  destruct (negb (audioContext c)); [now split |].
  destruct (negb (existsb (Z.eqb id) (audioBuffersRef s))); [now split |].
  destruct (isRecording c); unfold hitsBounded; simpl; split; trivial.
  apply Forall_app. split; [exact H2 |].
  constructor; [simpl; lia | constructor].
Qed.

Lemma hitsBounded_startActualRecording (c : Render) (s : State) :
  hitsBounded (startActualRecording c s).
Proof.
  apply hitsBounded_capture
    with (s := handleRecordingChange true s).
  - unfold startActualRecording, startMetronome, playMetronomeClick.
    now case_conds.
  - unfold hitsBounded, handleRecordingChange; simpl.
    split; [lia | constructor].
Qed.

Lemma hitsBounded_handleRecord (c : Render) (s : State) :
  hitsBounded s -> hitsBounded (handleRecord c s).
Proof.
  intros H. unfold handleRecord.
  destruct (isRecording c || isCountingIn c).
  - destruct (isCountingIn c).
    + eapply hitsBounded_capture; [| exact H].
      rewrite capture_clearCountInTimeout, capture_stopMetronome.
      reflexivity.
    + eapply hitsBounded_capture; [| exact H].
      rewrite capture_setRecording, capture_clearRecordingInterval,
        capture_setRecordingPosition, capture_stopMetronome.
      reflexivity.
  - destruct (0 <? countInBars c).
    + eapply hitsBounded_capture; [| exact H].
      unfold startMetronome, playMetronomeClick. now case_conds.
    + apply hitsBounded_startActualRecording.
Qed.

Lemma hitsBounded_handleClear (s : State) :
  hitsBounded s -> hitsBounded (handleClear s).
Proof.
  intros H. unfold handleClear.
  apply (hitsBounded_handleRecordingChange false).
  eapply hitsBounded_capture; [| exact H].
  now rewrite capture_clearCountInTimeout, capture_setIsCountingIn,
    capture_setRecordingPosition, capture_setRecording,
    capture_stopMetronome, capture_stopPlayback.
Qed.

Lemma hitsBounded_handle (e : UserEvent) (s : State) :
  hitsBounded s -> hitsBounded (handle e s).
Proof.
  intros H. destruct e; cbn [handle].
  - now apply hitsBounded_handleRecord.
  - unfold handlePlayStop. destruct (isPlaying (ui s)).
    + eapply hitsBounded_capture; [apply capture_stopPlayback | exact H].
    + eapply hitsBounded_capture; [apply capture_startPlayback | exact H].
  - now apply hitsBounded_handleClear.
  - exact H.
  - exact H.
  - exact H.
  - exact H.
  - now apply hitsBounded_playAudio.
Qed.

Lemma capture_requeue (t : Timer) (s : State) :
  capture (requeue t s) = capture s.
Proof. unfold requeue. now destruct (period t). Qed.

Lemma hitsBounded_runCallback (self : TimerId) (cb : Callback) (s : State) :
  hitsBounded s -> hitsBounded (runCallback self cb s).
Proof.
  intros H. destruct cb; cbn [runCallback].
  - unfold playMetronomeClick. now case_conds.
  - now case_conds.
  - apply hitsBounded_startActualRecording.
  - exact H.
  - eapply hitsBounded_capture; [| exact H].
    now rewrite capture_clearRecordingInterval,
      capture_setRecordingPosition, capture_stopMetronome.
  - apply hitsBounded_playAudio with (c := c) (id := padId hit) in H.
    exact H.
  - cbv zeta. destruct (Qle_bool 1 _); [| exact H].
    eapply hitsBounded_capture; [| exact H].
    now rewrite capture_setTimeout, capture_stopPlayback.
  - eapply hitsBounded_capture; [apply capture_startPlayback | exact H].
  - exact H.
Qed.

Lemma hitsBounded_reachable (s : State) : reachable s -> hitsBounded s.
Proof.
  intros R. induction R as [| s1 s2 _ IH Hstep].
  - unfold hitsBounded; simpl. split; [lia | constructor].
  - destruct Hstep as [e s1 _ | t s1 _ _ | t s1 Ht].
    + now apply hitsBounded_handle.
    + unfold fire. apply hitsBounded_runCallback.
      eapply hitsBounded_capture; [apply capture_requeue | exact IH].
    + destruct IH as [H1 H2]. unfold hitsBounded; simpl. split; [lia |].
      eapply Forall_impl; [| exact H2]. simpl. intros h Hh. lia.
Qed.

(** *** Hits and the recording window *)




(** ** The timer queue under the handlers *)

Lemma In_clearTimer (id : TimerId) (s : State) (u : Timer) :
  In u (timers (clearTimer id s)) <-> In u (timers s) /\ tid u <> id.
Proof.
  unfold clearTimer; simpl. rewrite filter_In.
  destruct (Pos.eqb_spec (tid u) id); simpl; intuition congruence.
Qed.

Lemma set_timers_same (s : State) : set_timers (timers s) s = s.
Proof. now destruct s. Qed.

Lemma clear_all_eq (ids : list TimerId) (s : State) :
  fold_left (fun s id => clearTimeout id s) ids s
  = set_timers
      (filter (fun t => negb (existsb (Pos.eqb (tid t)) ids)) (timers s)) s.
Proof.
  revert s. induction ids as [| id ids IH]; intros s; simpl.
  - rewrite <- (set_timers_same s) at 1. f_equal.
    induction (timers s) as [| t l IHl]; simpl; [reflexivity | now f_equal].
  - rewrite IH. unfold clearTimeout, clearTimer, set_timers; simpl. f_equal.
    induction (timers s) as [| t l IHl]; simpl; [reflexivity |].
    destruct (Pos.eqb (tid t) id); simpl; [exact IHl |].
    destruct (existsb (Pos.eqb (tid t)) ids); simpl; [exact IHl |].
    now f_equal.
Qed.

Lemma In_requeue (t : Timer) (s : State) (u : Timer) :
  In u (timers (requeue t s)) ->
  (In u (timers s) /\ tid u <> tid t)
  \/ (exists p : Z, period t = Some p
        /\ u = mkTimer (tid t) (now s + p) (Some p) (bump (callback t))).
Proof.
  unfold requeue. destruct (period t) as [p |]; cbn [timers set_timers].
  - rewrite in_app_iff. intros [H | [H | []]].
    + left. now apply In_clearTimer.
    + right. exists p. split; [reflexivity | now symmetry].
  - intros H. left. now apply In_clearTimer.
Qed.

Lemma In_stopMetronome (s : State) (u : Timer) :
  In u (timers (stopMetronome s)) ->
  In u (timers s) /\ metronomeIntervalRef s <> Some (tid u).
Proof.
  unfold stopMetronome. destruct (metronomeIntervalRef s) as [m |].
  - cbn [timers set_metronomeIntervalRef]. unfold clearInterval.
    rewrite In_clearTimer. intros [H1 H2]. split; [exact H1 | congruence].
  - intros H. split; [exact H | discriminate].
Qed.

(** What [stopPlayback] leaves in the queue. *)
Lemma In_stopPlayback (s : State) (u : Timer) :
  In u (timers (stopPlayback s)) ->
  In u (timers s)
  /\ metronomeIntervalRef s <> Some (tid u)
  /\ playbackIntervalRef s <> Some (tid u)
  /\ ~ In (tid u) (scheduledHitsRef s).
Proof.
  unfold stopPlayback. rewrite clear_all_eq.
  destruct s as [p rs ct pi ps sh ri mi ss ab n tm nx so cl].
  unfold stopMetronome, clearInterval, clearTimer.
  destruct mi as [m |]; destruct pi as [i |]; cbn.
  all: rewrite ?filter_In.
  all: intros H; decompose [and] H; clear H.
  all: repeat match goal with
           | H : negb (Pos.eqb _ _) = true |- _ =>
               apply negb_true_iff, Pos.eqb_neq in H
           | H : negb (existsb _ _) = true |- _ =>
               apply negb_true_iff in H
           end.
  all: split; [assumption |].
  all: split; [congruence |].
  all: split; [congruence |].
  all: intros Hin.
  all: match goal with
    | H : existsb _ _ = false |- _ =>
        assert (E : existsb (Pos.eqb (tid u)) sh = true)
          by (apply existsb_exists; exists (tid u); split;
              [exact Hin | apply Pos.eqb_refl]);
        congruence
    end.
Qed.

Lemma stopPlayback_fields (s : State) :
  isPlaying (ui (stopPlayback s)) = false
  /\ playbackPosition (ui (stopPlayback s)) = 0%Q
  /\ playbackIntervalRef (stopPlayback s) = None
  /\ metronomeIntervalRef (stopPlayback s) = None
  /\ scheduledHitsRef (stopPlayback s) = []
  /\ playbackStartTimeRef (stopPlayback s) = playbackStartTimeRef s
  /\ now (stopPlayback s) = now s
  /\ nextTimerId (stopPlayback s) = nextTimerId s
  /\ sounds (stopPlayback s) = sounds s
  /\ clicks (stopPlayback s) = clicks s.
Proof.
  unfold stopPlayback. rewrite clear_all_eq.
  destruct s as [p rs ct pi ps sh ri mi ss ab n tm nx so cl].
  unfold stopMetronome, clearInterval, clearTimer.
  destruct mi as [m |]; destruct pi as [i |]; cbn; repeat split.
Qed.

(** After [stopPlayback], in a state whose callbacks are all tracked, no
    callback of the playback is pending. *)
Lemma stopPlayback_quiet (c : Render) (r : Recording.t) (s : State) :
  (forall t : Timer, In t (timers s) -> tracked c r s t) ->
  quiet (stopPlayback s).
Proof.
  intros Ht u Hu. apply In_stopPlayback in Hu.
  destruct Hu as (Hin & Hm & Hp & Hs).
  specialize (Ht u Hin). revert Ht. unfold tracked, isBenign.
  destruct (callback u); intros Ht; try reflexivity; exfalso;
    intuition congruence.
Qed.

Lemma bump_isBenign (t : Timer) (d : Z) (p : option Z) :
  isBenign t = true ->
  isBenign (mkTimer (tid t) d p (bump (callback t))) = true.
Proof. unfold isBenign; simpl. now destruct (callback t). Qed.

(** The body of the auto-stop callback: it only removes callbacks, among
    them the one [metronomeIntervalRef] points to. *)
Lemma In_autoStop (self : TimerId) (s : State) (u : Timer) :
  In u (timers (runCallback self AutoStop s)) ->
  In u (timers s) /\ metronomeIntervalRef s <> Some (tid u).
Proof.
  cbn [runCallback].
  destruct s as [p rs ct pi ps sh ri mi ss ab n tm nx so cl].
  unfold clearRecordingInterval, stopMetronome, handleRecordingChange,
    clearInterval, clearTimer.
  destruct mi as [m |]; destruct ri as [i |]; cbn.
  all: intros H.
  all: repeat match goal with
           | H : In _ (filter _ _) |- _ =>
               apply filter_In in H; destruct H
           | H : negb (Pos.eqb _ _) = true |- _ =>
               apply negb_true_iff, Pos.eqb_neq in H
           end.
  all: split; [assumption | congruence].
Qed.

Lemma autoStop_frame (self : TimerId) (s : State) :
  isPlaying (ui (runCallback self AutoStop s)) = isPlaying (ui s)
  /\ now (runCallback self AutoStop s) = now s
  /\ scheduledHitsRef (runCallback self AutoStop s) = scheduledHitsRef s
  /\ playbackStartTimeRef (runCallback self AutoStop s)
     = playbackStartTimeRef s
  /\ playbackIntervalRef (runCallback self AutoStop s)
     = playbackIntervalRef s
  /\ sounds (runCallback self AutoStop s) = sounds s
  /\ clicks (runCallback self AutoStop s) = clicks s.
Proof.
  cbn [runCallback].
  destruct s as [p rs ct pi ps sh ri mi ss ab n tm nx so cl].
  unfold clearRecordingInterval, stopMetronome, handleRecordingChange.
  destruct mi as [m |]; destruct ri as [i |]; cbn; now repeat split.
Qed.

(** The body of the bar interval. *)
Lemma In_barAdvance (self : TimerId) (c : Render) (n : Z) (s : State)
      (u : Timer) :
  In u (timers (runCallback self (BarAdvance c n) s)) -> In u (timers s).
Proof.
  cbn [runCallback]. destruct (n + 1 <=? countInBars c); [trivial |].
  unfold clearInterval. rewrite In_clearTimer. tauto.
Qed.

Lemma barAdvance_frame (self : TimerId) (c : Render) (n : Z) (s : State) :
  isPlaying (ui (runCallback self (BarAdvance c n) s)) = isPlaying (ui s)
  /\ now (runCallback self (BarAdvance c n) s) = now s
  /\ scheduledHitsRef (runCallback self (BarAdvance c n) s)
     = scheduledHitsRef s
  /\ playbackStartTimeRef (runCallback self (BarAdvance c n) s)
     = playbackStartTimeRef s
  /\ playbackIntervalRef (runCallback self (BarAdvance c n) s)
     = playbackIntervalRef s
  /\ metronomeIntervalRef (runCallback self (BarAdvance c n) s)
     = metronomeIntervalRef s
  /\ sounds (runCallback self (BarAdvance c n) s) = sounds s
  /\ clicks (runCallback self (BarAdvance c n) s) = clicks s.
Proof.
  cbn [runCallback]. destruct (n + 1 <=? countInBars c); now repeat split.
Qed.

(** With no callback of the playback pending, nothing more is heard. *)
Lemma quiet_tstep (s s' : State) :
  quiet s -> tstep s s' ->
  quiet s' /\ sounds s' = sounds s /\ clicks s' = clicks s.
Proof.
  intros Hp Hstep. destruct Hstep as [t s Hin Hdue | t s Hle].
  - pose proof (Hp t Hin) as Ht. unfold fire.
    assert (Hq : quiet (requeue t s)).
    { intros u Hu. apply In_requeue in Hu.
      destruct Hu as [[Hu _] | (p & _ & ->)]; [now apply Hp |].
      now apply bump_isBenign. }
    assert (Hl : sounds (requeue t s) = sounds s
                 /\ clicks (requeue t s) = clicks s).
    { unfold requeue. now destruct (period t). }
    destruct Hl as [Hl1 Hl2].
    revert Ht. unfold isBenign.
    destruct (callback t) as [| c' n | | | | | | |id];
      intros Ht; try discriminate.
    + destruct (barAdvance_frame (tid t) c' n (requeue t s))
        as (_ & _ & _ & _ & _ & _ & B1 & B2).
      split; [| split; congruence].
      intros u Hu. apply In_barAdvance in Hu. now apply Hq.
    + destruct (autoStop_frame (tid t) (requeue t s))
        as (_ & _ & _ & _ & _ & B1 & B2).
      split; [| split; congruence].
      intros u Hu. apply In_autoStop in Hu. now apply Hq.
    + cbn [runCallback]. split; [exact Hq | now split].
  - split; [exact Hp | split; reflexivity].
Qed.

Lemma quiet_tsteps (s s' : State) :
  quiet s -> tsteps s s' ->
  quiet s' /\ sounds s' = sounds s /\ clicks s' = clicks s.
Proof.
  intros Hp R. induction R as [| s1 s2 _ IH Hstep].
  - now repeat split.
  - destruct IH as (H1 & H2 & H3).
    destruct (quiet_tstep _ _ H1 Hstep) as (H4 & H5 & H6).
    split; [exact H4 |]. split; congruence.
Qed.

(** *** Scheduling the triggers *)

Lemma In_Set_add (x y : TimerId) (l : list TimerId) :
  In y (Set_add Pos.eqb x l) <-> y = x \/ In y l.
Proof.
  unfold Set_add. destruct (existsb (Pos.eqb x) l) eqn:E.
  - split; [now right |]. intros [-> | H]; [| exact H].
    apply existsb_exists in E. destruct E as (z & Hz & Hxz).
    apply Pos.eqb_eq in Hxz. now subst.
  - rewrite in_app_iff. simpl. intuition.
Qed.

Lemma scheduleHits_frame (c : Render) (hs : list RecordedHit) (s : State) :
  ui (fold_left (scheduleHit c) hs s) = ui s
  /\ now (fold_left (scheduleHit c) hs s) = now s
  /\ playbackStartTimeRef (fold_left (scheduleHit c) hs s)
     = playbackStartTimeRef s
  /\ playbackIntervalRef (fold_left (scheduleHit c) hs s)
     = playbackIntervalRef s
  /\ metronomeIntervalRef (fold_left (scheduleHit c) hs s)
     = metronomeIntervalRef s.
Proof.
  revert s. induction hs as [| h hs IH]; intros s; simpl.
  - now repeat split.
  - destruct (IH (scheduleHit c s h)) as (H1 & H2 & H3 & H4 & H5).
    rewrite H1, H2, H3, H4, H5. now repeat split.
Qed.

Lemma scheduleHits_keeps (c : Render) (hs : list RecordedHit) (s : State)
      (id : TimerId) :
  In id (scheduledHitsRef s) ->
  In id (scheduledHitsRef (fold_left (scheduleHit c) hs s)).
Proof.
  revert s. induction hs as [| h hs IH]; intros s; simpl; [trivial |].
  intros H. apply IH. unfold scheduleHit; simpl.
  apply In_Set_add. now right.
Qed.

Lemma In_scheduleHits (c : Render) (hs : list RecordedHit) (s : State)
      (u : Timer) :
  In u (timers (fold_left (scheduleHit c) hs s)) ->
  In u (timers s)
  \/ (exists h : RecordedHit,
         In h hs
         /\ callback u = HitTrigger c h
         /\ period u = None
         /\ In (tid u) (scheduledHitsRef (fold_left (scheduleHit c) hs s))
         /\ due u = now s + delayOfZ (timestamp h)).
Proof.
  revert s. induction hs as [| h hs IH]; intros s; simpl; [now left |].
  intros H. apply IH in H. destruct H as [H | (h' & Hh & H)].
  - unfold scheduleHit in H; simpl in H. apply in_app_iff in H.
    destruct H as [H | [H | []]]; [now left |].
    right. exists h. subst u; simpl. split; [now left |].
    repeat split.
    apply scheduleHits_keeps. unfold scheduleHit; simpl.
    apply In_Set_add. now left.
  - right. exists h'. split; [now right |]. exact H.
Qed.

Lemma In_startMetronome (c : Render) (s : State) (u : Timer) :
  In u (timers (startMetronome c s)) ->
  In u (timers s)
  \/ (exists n : Z, callback u = MetronomeTick c n
        /\ metronomeIntervalRef (startMetronome c s) = Some (tid u)).
Proof.
  unfold startMetronome, playMetronomeClick.
  destruct (metronomeEnabled c); cbn; [| now left].
  rewrite in_app_iff. intros [H | [H | []]]; [now left |].
  right. exists 0. now subst u.
Qed.

Lemma startMetronome_frame (c : Render) (s : State) :
  ui (startMetronome c s) = ui s
  /\ now (startMetronome c s) = now s
  /\ playbackStartTimeRef (startMetronome c s) = playbackStartTimeRef s
  /\ playbackIntervalRef (startMetronome c s) = playbackIntervalRef s
  /\ scheduledHitsRef (startMetronome c s) = scheduledHitsRef s.
Proof.
  unfold startMetronome, playMetronomeClick.
  destruct (metronomeEnabled c); cbn; now repeat split.
Qed.

(** [startPlayback] with a recording to play, in a quiet state: the
    iteration is anchored at the clock and every pending callback is
    tracked. *)
Lemma startPlayback_tracked (c : Render) (r : Recording.t) (s : State) :
  recording c = Some r -> Recording.hits r <> [] -> quiet s ->
  playbackStartTimeRef (startPlayback c s) = now s
  /\ now (startPlayback c s) = now s
  /\ isPlaying (ui (startPlayback c s)) = true
  /\ (forall t : Timer,
         In t (timers (startPlayback c s)) -> tracked c r (startPlayback c s) t).
Proof.
  intros Hr Hh Hp. unfold startPlayback. rewrite Hr.
  destruct (Recording.hits r) as [| h0 hs0] eqn:Ehits; [congruence |].
  rewrite <- Ehits. clear Hh.
  set (s3 := set_scheduledHitsRef []
               (set_playbackStartTimeRef (now (setIsPlaying true s))
                  (setIsPlaying true s))).
  set (s4 := if metronomeEnabled c then startMetronome c s3 else s3).
  set (s5 := fold_left (scheduleHit c) (Recording.hits r) s4).
  assert (F4 : ui s4 = ui s3 /\ now s4 = now s3
               /\ playbackStartTimeRef s4 = playbackStartTimeRef s3
               /\ playbackIntervalRef s4 = playbackIntervalRef s3
               /\ scheduledHitsRef s4 = scheduledHitsRef s3).
  { unfold s4. destruct (metronomeEnabled c);
      [apply startMetronome_frame | now repeat split]. }
  destruct F4 as (F41 & F42 & F43 & F44 & F45).
  destruct (scheduleHits_frame c (Recording.hits r) s4)
    as (F51 & F52 & F53 & F54 & F55). fold s5 in F51, F52, F53, F54, F55.
  cbn [setInterval addTimer].
  cbn [playbackStartTimeRef now ui timers set_playbackIntervalRef
       set_nextTimerId set_timers].
  rewrite F53, F43, F52, F42, F51, F41.
  split; [reflexivity |]. split; [reflexivity |]. split; [reflexivity |].
  intros t Ht. apply in_app_iff in Ht. destruct Ht as [Ht | [Ht | []]].
  - apply In_scheduleHits in Ht. destruct Ht as [Ht | (h & _ & Hc & Hq & Hi & Hd)].
    + assert (Ht' : In t (timers s3)
                    \/ exists n, callback t = MetronomeTick c n
                         /\ metronomeIntervalRef s4 = Some (tid t)).
      { unfold s4 in *. destruct (metronomeEnabled c);
          [now apply In_startMetronome | now left]. }
      destruct Ht' as [Ht' | (n & Hc & Hm)].
      * specialize (Hp t Ht'). revert Hp. unfold isBenign, tracked.
        destruct (callback t); intros Hp; try discriminate; exact I.
      * unfold tracked. rewrite Hc.
        cbn [metronomeIntervalRef set_playbackIntervalRef set_nextTimerId
             set_timers]. now rewrite F55.
    + unfold tracked. rewrite Hc.
      cbn [scheduledHitsRef playbackStartTimeRef set_playbackIntervalRef
           set_nextTimerId set_timers].
      split; [exact Hq |]. split; [exact Hi |].
      rewrite Hd, F53, F43, F42. reflexivity.
  - subst t. unfold tracked; cbn. now repeat split.
Qed.

(** *** The loop left to itself keeps its invariant *)

Lemma tracked_same_refs (c : Render) (r : Recording.t) (s s' : State)
      (u : Timer) :
  scheduledHitsRef s' = scheduledHitsRef s ->
  playbackStartTimeRef s' = playbackStartTimeRef s ->
  playbackIntervalRef s' = playbackIntervalRef s ->
  metronomeIntervalRef s' = metronomeIntervalRef s ->
  tracked c r s u -> tracked c r s' u.
Proof.
  intros H1 H2 H3 H4. unfold tracked. rewrite H1, H2, H3, H4. trivial.
Qed.

Lemma requeue_frame (t : Timer) (s : State) :
  ui (requeue t s) = ui s
  /\ now (requeue t s) = now s
  /\ scheduledHitsRef (requeue t s) = scheduledHitsRef s
  /\ playbackStartTimeRef (requeue t s) = playbackStartTimeRef s
  /\ playbackIntervalRef (requeue t s) = playbackIntervalRef s
  /\ metronomeIntervalRef (requeue t s) = metronomeIntervalRef s.
Proof. unfold requeue. destruct (period t); cbn; now repeat split. Qed.

Lemma playAudio_frame (c : Render) (id : Z) (s : State) :
  isPlaying (ui (playAudio c id s)) = isPlaying (ui s)
  /\ now (playAudio c id s) = now s
  /\ scheduledHitsRef (playAudio c id s) = scheduledHitsRef s
  /\ playbackStartTimeRef (playAudio c id s) = playbackStartTimeRef s
  /\ playbackIntervalRef (playAudio c id s) = playbackIntervalRef s
  /\ metronomeIntervalRef (playAudio c id s) = metronomeIntervalRef s.
Proof. unfold playAudio. case_conds; cbn; now repeat split. Qed.

Lemma In_playAudio (c : Render) (id : Z) (s : State) (u : Timer) :
  In u (timers (playAudio c id s)) -> In u (timers s) \/ isPadRelease u = true.
Proof.
  unfold playAudio. case_conds; cbn; try (now left).
  all: rewrite in_app_iff; intros [H | [H | []]]; [now left |].
  all: right; now subst u.
Qed.

Lemma In_Set_delete (x y : TimerId) (l : list TimerId) :
  In y (Set_delete Pos.eqb x l) <-> In y l /\ y <> x.
Proof.
  unfold Set_delete. rewrite filter_In.
  destruct (Pos.eqb_spec x y); simpl; intuition congruence.
Qed.

Lemma window_elapsed (e : Z) (d : Q) :
  (0 < d)%Q -> Qle_bool 1 (positionAt (inject_Z e) d) = true ->
  (d <= inject_Z e)%Q.
Proof.
  intros Hd H. apply Qle_bool_iff in H. unfold positionAt, Math.min in H.
  apply Q.min_glb_l in H.
  apply Qmult_le_compat_r with (z := d) in H; [| now apply Qlt_le_weak].
  rewrite Qmult_1_l in H.
  assert (E : (inject_Z e / d * d == inject_Z e)%Q).
  { field. intros E. rewrite E in Hd. discriminate. }
  now rewrite E in H.
Qed.

Lemma anchor_after_t0 (r : Recording.t) (t0 : Z) (s : State) :
  (0 < Recording.duration r)%Q -> anchored r t0 s ->
  t0 <= playbackStartTimeRef s.
Proof.
  intros Hd [_ [H | H]]; [lia |].
  rewrite Zle_Qle. lra.
Qed.

Section LoopPreserved.

Variable c : Render.
Variable r : Recording.t.
Variable t0 : Z.
Hypothesis Hrec : recording c = Some r.
Hypothesis Hhits : Recording.hits r <> [].
Hypothesis Hdur : (0 < Recording.duration r)%Q.

Lemma looping_wait (t : Z) (s : State) :
  now s <= t -> looping c r t0 s -> looping c r t0 (set_now t s).
Proof.
  intros Hle [[Ha1 Ha2] Hph]. split.
  - split; [cbn; lia | exact Ha2].
  - exact Hph.
Qed.

(** A pad played by hand. *)
Lemma looping_pad (c' : Render) (id : Z) (s : State) :
  looping c r t0 s -> looping c r t0 (playAudio c' id s).
Proof.
  intros [Ha Hph].
  destruct (playAudio_frame c' id s) as (G0 & G1 & G2 & G3 & G4 & G5).
  split; [unfold anchored; rewrite G3, G1; exact Ha |].
  destruct Hph as [[Hp Ht] | [Hp [rid Ht]]].
  - left. split; [now rewrite G0 |]. intros u Hu.
    apply In_playAudio in Hu. destruct Hu as [Hu | Hu].
    + eapply tracked_same_refs; eauto.
    + revert Hu. unfold isPadRelease, tracked.
      destruct (callback u); intros Hu; try discriminate. exact I.
  - right. split; [now rewrite G0 |]. exists rid. intros u Hu.
    apply In_playAudio in Hu. destruct Hu as [Hu | Hu]; [now apply Ht |].
    revert Hu. unfold isPadRelease, settlingTimer.
    destruct (callback u); intros Hu; try discriminate. exact I.
Qed.

Lemma tracked_requeue (t : Timer) (s : State) :
  In t (timers s) ->
  (forall u : Timer, In u (timers s) -> tracked c r s u) ->
  forall u : Timer, In u (timers (requeue t s)) -> tracked c r (requeue t s) u.
Proof.
  intros Hin Ht u Hu.
  destruct (requeue_frame t s) as (_ & _ & F1 & F2 & F3 & F4).
  apply In_requeue in Hu. destruct Hu as [[Hu _] | (p & Hp & ->)].
  - eapply tracked_same_refs; eauto.
  - specialize (Ht t Hin).
    eapply tracked_same_refs with (s := s); eauto.
    revert Ht. unfold tracked; cbn [callback tid period due].
    destruct (callback t); cbn [bump]; trivial.
    intros (Hq & _). congruence.
Qed.

Lemma looping_fire_playing (t : Timer) (s : State) :
  In t (timers s) -> due t <= now s ->
  anchored r t0 s -> isPlaying (ui s) = true ->
  (forall u : Timer, In u (timers s) -> tracked c r s u) ->
  looping c r t0 (fire t s).
Proof.
  intros Hin Hdue Ha Hp Ht.
  pose proof (tracked_requeue t s Hin Ht) as Hq.
  pose proof (Ht t Hin) as Htt.
  destruct (requeue_frame t s) as (F0 & F1 & F2 & F3 & F4 & F5).
  assert (Ha1 : anchored r t0 (requeue t s)).
  { unfold anchored. now rewrite F3, F1. }
  assert (Hp1 : isPlaying (ui (requeue t s)) = true) by now rewrite F0.
  assert (Hself : period t = None ->
                  forall u, In u (timers (requeue t s)) -> tid u <> tid t).
  { intros Hn u Hu. apply In_requeue in Hu.
    destruct Hu as [[_ Hu] | (p & Hpp & _)]; [exact Hu | congruence]. }
  unfold fire. set (s1 := requeue t s) in *. clearbody s1.
  revert Htt. unfold tracked at 1.
  destruct (callback t) as [c' n | c' n | | | | c' h | c' r' | |id];
    intros Htt; try contradiction.
  - (* metronome click *)
    cbn [runCallback].
    unfold playMetronomeClick. destruct (negb (metronomeEnabled c')).
    + split; [exact Ha1 |]. left. now split.
    + split; [exact Ha1 |]. left. split; [exact Hp1 |]. exact Hq.
  - (* a leftover bar interval *)
    destruct (barAdvance_frame (tid t) c' n s1)
      as (B0 & B1 & B2 & B3 & B4 & B5 & _ & _).
    split; [unfold anchored; rewrite B3, B1; exact Ha1 |].
    left. split; [now rewrite B0 |]. intros u Hu.
    apply In_barAdvance in Hu.
    eapply tracked_same_refs; eauto.
  - (* a leftover auto-stop *)
    destruct (autoStop_frame (tid t) s1) as (B0 & B1 & B2 & B3 & B4 & _ & _).
    split; [unfold anchored; rewrite B3, B1; exact Ha1 |].
    left. split; [now rewrite B0 |]. intros u Hu.
    apply In_autoStop in Hu. destruct Hu as [Hu Hm].
    pose proof (Hq u Hu) as Hqu. revert Hqu. unfold tracked.
    rewrite B2, B3, B4.
    destruct (callback u); trivial. intros Hqu. congruence.
  - (* a trigger *)
    cbn [runCallback].
    destruct Htt as (Hnone & _ & _).
    destruct (playAudio_frame c' (padId h) s1) as (G0 & G1 & G2 & G3 & G4 & G5).
    split.
    + unfold anchored; cbn [playbackStartTimeRef now set_scheduledHitsRef].
      rewrite G3, G1. exact Ha1.
    + left. split; [cbn [ui set_scheduledHitsRef]; now rewrite G0 |].
      cbn [timers set_scheduledHitsRef]. intros u Hu.
      apply In_playAudio in Hu. destruct Hu as [Hu | Hu].
      * pose proof (Hq u Hu) as Hqu. pose proof (Hself Hnone u Hu) as Hne.
        revert Hqu. unfold tracked.
        cbn [scheduledHitsRef playbackStartTimeRef playbackIntervalRef
             metronomeIntervalRef set_scheduledHitsRef].
        rewrite G2, G3, G4, G5.
        destruct (callback u); trivial.
        intros (Q1 & Q2 & Q3). split; [exact Q1 |]. split; [| exact Q3].
        apply In_Set_delete. now split.
      * revert Hu. unfold isPadRelease, tracked.
        destruct (callback u); intros Hu; try discriminate. exact I.
  - (* the position interval *)
    cbn [runCallback].
    destruct Htt as (-> & -> & _).
    cbv zeta.
    set (position := positionAt _ _).
    destruct (Qle_bool 1 position) eqn:Hdone.
    + apply window_elapsed in Hdone; [| exact Hdur].
      cbn [now playbackStartTimeRef setPlaybackPosition with_ui] in Hdone.
      set (s2 := setPlaybackPosition position s1).
      assert (Hq2 : forall u, In u (timers s2) -> tracked c r s2 u)
        by exact Hq.
      pose proof (stopPlayback_quiet c r s2 Hq2) as Hpad.
      destruct (stopPlayback_fields s2)
        as (S0 & _ & _ & _ & _ & S3 & S1 & _ & _ & _).
      split.
      * unfold anchored.
        cbn [playbackStartTimeRef now setTimeout addTimer snd
             set_nextTimerId set_timers].
        rewrite S3, S1. exact Ha1.
      * right. split; [exact S0 |].
        exists (nextTimerId (stopPlayback s2)).
        cbn [setTimeout addTimer snd timers set_nextTimerId set_timers].
        intros u Hu. apply in_app_iff in Hu. destruct Hu as [Hu | [Hu | []]].
        -- specialize (Hpad u Hu). revert Hpad.
           unfold isBenign, settlingTimer.
           destruct (callback u); intros Hpad; try discriminate; exact I.
        -- subst u. unfold settlingTimer; cbn [callback period tid due].
           split; [reflexivity |]. split; [reflexivity |].
           split; [reflexivity |].
           rewrite S1. change (now s2) with (now s1).
           pose proof (anchor_after_t0 r t0 s1 Hdur Ha1) as H0.
           rewrite Zle_Qle in H0.
           unfold delayOfZ. rewrite inject_Z_plus.
           unfold Z.sub in Hdone.
           rewrite inject_Z_plus, inject_Z_opp in Hdone.
           change (inject_Z (Z.max 0 50)) with 50%Q.
           lra.
    + split; [exact Ha1 |]. left. split; [exact Hp1 | exact Hq].
  - (* a pad release *)
    cbn [runCallback].
    split; [exact Ha1 |]. left. split; [exact Hp1 | exact Hq].
Qed.

Lemma looping_fire_settling (t : Timer) (s : State) (rid : TimerId) :
  In t (timers s) -> due t <= now s ->
  anchored r t0 s -> isPlaying (ui s) = false ->
  (forall u : Timer, In u (timers s) -> settlingTimer c r t0 rid u) ->
  looping c r t0 (fire t s).
Proof.
  intros Hin Hdue Ha Hp Ht.
  pose proof (Ht t Hin) as Htt.
  destruct (requeue_frame t s) as (F0 & F1 & F2 & F3 & F4 & F5).
  assert (Ha1 : anchored r t0 (requeue t s)).
  { unfold anchored. now rewrite F3, F1. }
  assert (Hp1 : isPlaying (ui (requeue t s)) = false) by now rewrite F0.
  assert (Hq : forall u, In u (timers (requeue t s)) ->
                         settlingTimer c r t0 rid u).
  { intros u Hu. apply In_requeue in Hu.
    destruct Hu as [[Hu _] | (p & Hpp & ->)]; [now apply Ht |].
    revert Htt. unfold settlingTimer; cbn [callback tid period due].
    destruct (callback t); cbn [bump]; trivial.
    intros (_ & Hn & _). congruence. }
  assert (Hself : period t = None ->
                  forall u, In u (timers (requeue t s)) -> tid u <> tid t).
  { intros Hn u Hu. apply In_requeue in Hu.
    destruct Hu as [[_ Hu] | (p & Hpp & _)]; [exact Hu | congruence]. }
  unfold fire. set (s1 := requeue t s) in *.
  assert (Hnow : now s1 = now s) by exact F1.
  clearbody s1.
  revert Htt. unfold settlingTimer at 1.
  destruct (callback t) as [| c' n | | | | | | c' |id];
    intros Htt; try contradiction.
  - (* a leftover bar interval *)
    destruct (barAdvance_frame (tid t) c' n s1)
      as (B0 & B1 & B2 & B3 & B4 & B5 & _ & _).
    split; [unfold anchored; rewrite B3, B1; exact Ha1 |].
    right. split; [now rewrite B0 |]. exists rid. intros u Hu.
    apply In_barAdvance in Hu. now apply Hq.
  - (* a leftover auto-stop *)
    destruct (autoStop_frame (tid t) s1) as (B0 & B1 & B2 & B3 & B4 & _ & _).
    split; [unfold anchored; rewrite B3, B1; exact Ha1 |].
    right. split; [now rewrite B0 |]. exists rid. intros u Hu.
    apply In_autoStop in Hu. now apply Hq.
  - (* the restart *)
    cbn [runCallback].
    destruct Htt as (-> & Hnone & Hrid & Hbound).
    assert (Hpad : quiet s1).
    { intros u Hu. pose proof (Hq u Hu) as Hqu.
      pose proof (Hself Hnone u Hu) as Hne.
      revert Hqu. unfold settlingTimer, isBenign.
      destruct (callback u); intros Hqu; try contradiction; try reflexivity.
      destruct Hqu as (_ & _ & Hr' & _). congruence. }
    destruct (startPlayback_tracked c r s1 Hrec Hhits Hpad)
      as (P1 & P2 & P3 & P4).
    split.
    + unfold anchored. rewrite P1, P2. split; [lia |]. right.
      eapply Qle_trans; [exact Hbound |].
      rewrite <- Zle_Qle. lia.
    + left. split; [exact P3 | exact P4].
  - (* a pad release *)
    cbn [runCallback].
    split; [exact Ha1 |]. right. split; [exact Hp1 |]. exists rid. exact Hq.
Qed.

Lemma looping_lstep (s s' : State) :
  looping c r t0 s -> lstep s s' -> looping c r t0 s'.
Proof.
  intros Hl Hstep. destruct Hstep as [t s Hin Hdue | t s Hle | id s].
  - destruct Hl as [Ha [[Hp Ht] | [Hp [rid Ht]]]].
    + now apply looping_fire_playing.
    + now apply looping_fire_settling with (rid := rid).
  - now apply looping_wait.
  - cbn [handle]. now apply looping_pad.
Qed.

Lemma looping_lsteps (s s' : State) :
  looping c r t0 s -> lsteps s s' -> looping c r t0 s'.
Proof.
  intros Hl R. induction R as [| s1 s2 _ IH Hstep]; [exact Hl |].
  eapply looping_lstep; eassumption.
Qed.

End LoopPreserved.

Lemma lsteps_trans (a b c : State) : lsteps a b -> lsteps b c -> lsteps a c.
Proof. apply star_trans. Qed.

Lemma lsteps_one (a b : State) : lstep a b -> lsteps a b.
Proof. intros H. eapply star_snoc; [apply star_refl | exact H]. Qed.

Lemma elapse_lsteps (fuel : nat) (t : Z) (s s' : State) :
  elapse fuel t s = Some s' -> lsteps s s'.
Proof.
  revert s. induction fuel as [| fuel IH]; intros s; simpl.
  - destruct (nextTimer (timers s)) as [tm |].
    + destruct (due tm <=? t); [discriminate |].
      intros H; inversion H; subst. apply lsteps_one, lstep_wait. lia.
    + intros H; inversion H; subst. apply lsteps_one, lstep_wait. lia.
  - destruct (nextTimer (timers s)) as [tm |] eqn:Hn.
    + destruct (due tm <=? t).
      * intros H. apply IH in H.
        eapply lsteps_trans; [| exact H].
        eapply lsteps_trans.
        -- apply lsteps_one. apply (lstep_wait (Z.max (now s) (due tm))). lia.
        -- apply lsteps_one. apply lstep_fire.
           ++ simpl. now apply nextTimer_In.
           ++ simpl. lia.
      * intros H; inversion H; subst. apply lsteps_one, lstep_wait. lia.
    + intros H; inversion H; subst. apply lsteps_one, lstep_wait. lia.
Qed.

Lemma startPlayback_looping (c : Render) (r : Recording.t) (s0 : State) :
  recording c = Some r -> Recording.hits r <> [] -> quiet s0 ->
  looping c r (now s0) (startPlayback c s0).
Proof.
  intros Hr Hh Hp.
  destruct (startPlayback_tracked c r s0 Hr Hh Hp) as (P1 & P2 & P3 & P4).
  split.
  - unfold anchored. rewrite P1, P2. split; [lia | now left].
  - left. now split.
Qed.

Lemma quiet_pending (sort : Timer -> bool) (s : State) :
  quiet s ->
  (forall t : Timer, isBenign t = true -> sort t = false) ->
  pending sort s = [].
Proof.
  intros Hp Hs. unfold pending.
  assert (E : filter sort (timers s) = []); [| now rewrite E].
  unfold quiet in Hp.
  induction (timers s) as [| t l IH]; simpl; [reflexivity |].
  rewrite (Hs t) by (apply Hp; now left).
  apply IH. intros u Hu. apply Hp. now right.
Qed.

Lemma readyToPlay_quiet : quiet readyToPlay.
Proof.
  intros t Ht. cbn in Ht. destruct Ht as [<- | []]. reflexivity.
Qed.

(** ** Stopping playback *)



(** ** The loop when every callback is on time *)

Lemma ceiling_ticks (d : Q) (j : Z) :
  (inject_Z (16 * (j - 1)) < d)%Q -> (d <= inject_Z (16 * j))%Q ->
  Qceiling (d / 16) = j.
Proof.
  intros Hlo Hhi.
  assert (H1 : (inject_Z (j - 1) < d / 16)%Q).
  { apply Qlt_shift_div_l; [reflexivity |].
    rewrite inject_Z_mult in Hlo. change (inject_Z 16) with 16%Q in Hlo. lra. }
  assert (H2 : (d / 16 <= inject_Z j)%Q).
  { apply Qle_shift_div_r; [reflexivity |].
    rewrite inject_Z_mult in Hhi. change (inject_Z 16) with 16%Q in Hhi. lra. }
  apply Z.le_antisymm.
  - apply Qceiling_resp_le in H2. now rewrite Qceiling_Z in H2.
  - pose proof (Qle_ceiling (d / 16)) as H3.
    assert (H4 : (inject_Z (j - 1) < inject_Z (Qceiling (d / 16)))%Q)
      by (eapply Qlt_le_trans; eassumption).
    rewrite <- Zlt_Qlt in H4. lia.
Qed.

Lemma window_running (e : Z) (d : Q) :
  (0 < d)%Q -> Qle_bool 1 (positionAt (inject_Z e) d) = false ->
  (inject_Z e < d)%Q.
Proof.
  intros Hd H. apply Qnot_le_lt. intros Hle.
  assert (E : Qle_bool 1 (positionAt (inject_Z e) d) = true); [| congruence].
  apply Qle_bool_iff. unfold positionAt, Math.min.
  apply Q.min_glb; [| apply Qle_refl].
  apply Qle_shift_div_l; [exact Hd |]. now rewrite Qmult_1_l.
Qed.

Lemma In_playAudio_due (c : Render) (id : Z) (s : State) (u : Timer) :
  In u (timers (playAudio c id s)) ->
  In u (timers s)
  \/ (isPadRelease u = true /\ due u = now s + 100 /\ period u = None).
Proof.
  unfold playAudio. case_conds; cbn; try (now left).
  all: rewrite in_app_iff; intros [H | [H | []]]; [now left |].
  all: right; now subst u.
Qed.

Lemma In_startMetronome_due (c : Render) (s : State) (u : Timer) :
  In u (timers (startMetronome c s)) ->
  In u (timers s)
  \/ (isMetronomeTick u = true /\ now s <= due u
      /\ forall p : Z, period u = Some p -> 0 <= p).
Proof.
  unfold startMetronome, playMetronomeClick.
  destruct (metronomeEnabled c); cbn; [| now left].
  rewrite in_app_iff. intros [H | [H | []]]; [now left |].
  right. subst u; cbn. unfold delayOfZ. split; [reflexivity |].
  split; [lia |]. intros p Hp. injection Hp as <-. lia.
Qed.

Lemma In_startPlayback_due (c : Render) (r : Recording.t) (s : State)
      (u : Timer) :
  recording c = Some r -> Recording.hits r <> [] ->
  In u (timers (startPlayback c s)) ->
  In u (timers s)
  \/ (now s <= due u
      /\ (forall p : Z, period u = Some p -> 0 <= p)
      /\ match callback u with
         | PlaybackTick _ _ => period u = Some 16 /\ due u = now s + 16
         | LoopRestart _ => False
         | _ => True
         end).
Proof.
  intros Hr Hh. unfold startPlayback. rewrite Hr.
  destruct (Recording.hits r) as [| h0 hs0] eqn:Ehits; [congruence |].
  rewrite <- Ehits. clear Hh.
  set (s3 := set_scheduledHitsRef []
               (set_playbackStartTimeRef (now (setIsPlaying true s))
                  (setIsPlaying true s))).
  set (s4 := if metronomeEnabled c then startMetronome c s3 else s3).
  set (s5 := fold_left (scheduleHit c) (Recording.hits r) s4).
  assert (F42 : now s4 = now s).
  { unfold s4. destruct (metronomeEnabled c); [| reflexivity].
    destruct (startMetronome_frame c s3) as (_ & E & _). exact E. }
  destruct (scheduleHits_frame c (Recording.hits r) s4)
    as (_ & F52 & _). fold s5 in F52.
  cbn [setInterval addTimer timers set_playbackIntervalRef set_nextTimerId
       set_timers].
  intros Hu. apply in_app_iff in Hu. destruct Hu as [Hu | [Hu | []]].
  - apply In_scheduleHits in Hu.
    destruct Hu as [Hu | (h & _ & Hc & Hq & _ & Hd)].
    + assert (Hu' : In u (timers s3)
                    \/ (isMetronomeTick u = true /\ now s3 <= due u
                        /\ forall p : Z, period u = Some p -> 0 <= p)).
      { unfold s4 in Hu. destruct (metronomeEnabled c);
          [now apply (In_startMetronome_due c) | now left]. }
      destruct Hu' as [Hu' | (Hm & Hd & Hp)]; [now left |].
      right. split; [exact Hd |]. split; [exact Hp |].
      revert Hm. unfold isMetronomeTick.
      destruct (callback u); intros Hm; try discriminate. exact I.
    + right. rewrite Hc, Hq, Hd, F42. unfold delayOfZ.
      split; [lia |]. split; [discriminate | exact I].
  - right. subst u. cbn [due period callback]. rewrite F52, F42.
    unfold delayOfZ. change (Z.max 0 16) with 16.
    split; [lia |]. split; [| now split].
    intros p Hp. injection Hp as <-. lia.
Qed.

Section LoopOnTime.

Variable c : Render.
Variable r : Recording.t.
Variable t0 : Z.
Hypothesis Hrec : recording c = Some r.
Hypothesis Hhits : Recording.hits r <> [].
Hypothesis Hdur : (0 < Recording.duration r)%Q.

(** A callback that leaves the anchor where it is and adds at most a pad
    release to the queue. *)
Lemma paced_simple (t : Timer) (s s' : State) :
  paced r t0 s -> In t (timers s) ->
  isPlaybackTick t = false -> isLoopRestart t = false ->
  playbackStartTimeRef s' = playbackStartTimeRef s -> now s' = now s ->
  (forall u : Timer,
      In u (timers s') ->
      In u (timers (requeue t s))
      \/ (isPadRelease u = true /\ due u = now s + 100 /\ period u = None)) ->
  paced r t0 s'.
Proof.
  intros (Hon & Hk & Hpt) Hin Hnt Hnr Ea En Hsub.
  assert (Hold : forall u, In u (timers (requeue t s)) ->
                   (now s <= due u /\ (forall p, period u = Some p -> 0 <= p))
                   /\ pacedTimer r (playbackStartTimeRef s) u).
  { intros u Hu. apply In_requeue in Hu.
    destruct Hu as [[Hu _] | (p & Hp & ->)]; [split; auto |].
    destruct (Hon t Hin) as [_ Hper]. specialize (Hper p Hp).
    split.
    - cbn [due period]. split; [lia |].
      intros q Hq. injection Hq as <-. exact Hper.
    - revert Hnt Hnr.
      unfold isPlaybackTick, isLoopRestart, pacedTimer; cbn [callback].
      destruct (callback t); cbn [bump]; intros Hnt Hnr;
        try discriminate; exact I. }
  split; [| split].
  - intros u Hu. rewrite En. destruct (Hsub u Hu) as [H | (_ & Hd & Hp)].
    + apply (Hold u H).
    + rewrite Hd, Hp. split; [lia | discriminate].
  - now rewrite Ea.
  - intros u Hu. rewrite Ea. destruct (Hsub u Hu) as [H | (Hr & _ & _)].
    + apply (Hold u H).
    + revert Hr. unfold isPadRelease, pacedTimer.
      destruct (callback u); intros Hr; try discriminate. exact I.
Qed.


Lemma looping_callback_kind (t : Timer) (s : State) :
  looping c r t0 s -> In t (timers s) ->
  match callback t with
  | CountInDone _ _ | RecordingTick _ => False
  | PlaybackTick c' r' =>
      c' = c /\ r' = r /\ playbackIntervalRef s = Some (tid t)
      /\ isPlaying (ui s) = true
      /\ (forall u : Timer, In u (timers s) -> tracked c r s u)
  | LoopRestart c' =>
      c' = c /\ period t = None
      /\ (forall u : Timer,
             In u (timers s) -> tid u <> tid t -> isBenign u = true)
  | _ => True
  end.
Proof.
  intros [_ [[Hp Ht] | [Hp [rid Ht]]]] Hin; pose proof (Ht t Hin) as Htt;
    revert Htt; [unfold tracked | unfold settlingTimer];
    destruct (callback t); trivial; try contradiction.
  - intros (E1 & E2 & E3). now repeat split.
  - intros (E1 & E2 & E3 & _). split; [exact E1 |]. split; [exact E2 |].
    intros u Hu Hne. specialize (Ht u Hu). revert Ht.
    unfold settlingTimer, isBenign.
    destruct (callback u); intros Hq; try contradiction; try reflexivity.
    destruct Hq as (_ & _ & Hr' & _). congruence.
Qed.

Lemma paced_fire (t : Timer) (s : State) :
  looping c r t0 s -> paced r t0 s -> In t (timers s) -> due t <= now s ->
  paced r t0 (fire t s).
Proof.
  intros Hl Hp Hin Hdue.
  pose proof Hp as (Hon & (k & Hk0 & Hk) & Hpt).
  destruct (Hon t Hin) as [Hge Hper].
  assert (Hnow : due t = now s) by lia.
  destruct (requeue_frame t s) as (F0 & F1 & F2 & F3 & F4 & F5).
  pose proof (looping_callback_kind t s Hl Hin) as Hkind.
  pose proof (Hpt t Hin) as Hpaced. unfold pacedTimer in Hpaced.
  unfold fire.
  destruct (callback t) as [c' n | c' n | c' b | c' | | c' h | c' r' | c' | id]
    eqn:Hcb; try contradiction.
  - (* metronome click *)
    apply paced_simple with (t := t) (s := s); trivial.
    + unfold isPlaybackTick. now rewrite Hcb.
    + unfold isLoopRestart. now rewrite Hcb.
    + cbn [runCallback]. unfold playMetronomeClick. now case_conds.
    + cbn [runCallback]. unfold playMetronomeClick. now case_conds.
    + cbn [runCallback]. unfold playMetronomeClick.
      case_conds; intros u Hu; now left.
  - (* a leftover bar interval *)
    destruct (barAdvance_frame (tid t) c' n (requeue t s))
      as (_ & B1 & _ & B3 & _).
    apply paced_simple with (t := t) (s := s); trivial.
    + unfold isPlaybackTick. now rewrite Hcb.
    + unfold isLoopRestart. now rewrite Hcb.
    + congruence.
    + congruence.
    + intros u Hu. left. now apply In_barAdvance in Hu.
  - (* a leftover auto-stop *)
    destruct (autoStop_frame (tid t) (requeue t s))
      as (_ & B1 & _ & B3 & _).
    apply paced_simple with (t := t) (s := s); trivial.
    + unfold isPlaybackTick. now rewrite Hcb.
    + unfold isLoopRestart. now rewrite Hcb.
    + congruence.
    + congruence.
    + intros u Hu. left. now apply In_autoStop in Hu.
  - (* a trigger *)
    cbn [runCallback].
    destruct (playAudio_frame c' (padId h) (requeue t s))
      as (_ & G1 & _ & G3 & _).
    apply paced_simple with (t := t) (s := s); trivial.
    + unfold isPlaybackTick. now rewrite Hcb.
    + unfold isLoopRestart. now rewrite Hcb.
    + cbn [playbackStartTimeRef set_scheduledHitsRef]. congruence.
    + cbn [now set_scheduledHitsRef]. congruence.
    + cbn [timers set_scheduledHitsRef]. intros u Hu.
      apply In_playAudio_due in Hu. rewrite F1 in Hu. exact Hu.
  - (* the position interval *)
    destruct Hkind as (-> & -> & Href & Hplay & Htr).
    destruct Hpaced as (Hp16 & j & Hj & Hdj & Hjd).
    pose proof (tracked_requeue c r t s Hin Htr) as Htr1.
    assert (Hold : forall u, In u (timers (requeue t s)) ->
                     tid u <> tid t -> In u (timers s)).
    { intros u Hu Hne. apply In_requeue in Hu.
      destruct Hu as [[Hu _] | (p & _ & ->)]; [exact Hu | now cbn in Hne]. }
    assert (Hel : now (requeue t s) - playbackStartTimeRef (requeue t s)
                  = 16 * j) by (rewrite F1, F3; lia).
    cbn [runCallback]. cbv zeta. rewrite Hel.
    set (position := positionAt _ _).
    destruct (Qle_bool 1 position) eqn:Hdone.
    + (* the window is over: stop, restart in 50 ms *)
      apply window_elapsed in Hdone; [| exact Hdur].
      set (s2 := setPlaybackPosition position (requeue t s)).
      assert (Htr2 : forall u, In u (timers s2) -> tracked c r s2 u)
        by exact Htr1.
      pose proof (stopPlayback_quiet c r s2 Htr2) as Hq.
      destruct (stopPlayback_fields s2)
        as (_ & _ & _ & _ & _ & S3 & S1 & _ & _ & _).
      assert (Ea : playbackStartTimeRef (stopPlayback s2)
                   = playbackStartTimeRef s) by (rewrite S3; exact F3).
      assert (En : now (stopPlayback s2) = now s) by (rewrite S1; exact F1).
      cbn [setTimeout addTimer snd].
      split; [| split].
      * intros u Hu. cbn [timers now set_nextTimerId set_timers] in *.
        rewrite En. apply in_app_iff in Hu. destruct Hu as [Hu | [Hu | []]].
        -- apply In_stopPlayback in Hu. destruct Hu as (Hu & _ & Hi & _).
           apply Hon. apply Hold; [exact Hu |].
           intros E. apply Hi. change (playbackIntervalRef s2)
             with (playbackIntervalRef (requeue t s)). congruence.
        -- subst u. cbn [due period]. unfold delayOfZ.
           split; [lia | discriminate].
      * exists k. split; [exact Hk0 |].
        cbn [playbackStartTimeRef set_nextTimerId set_timers]. congruence.
      * cbn [timers playbackStartTimeRef set_nextTimerId set_timers].
        rewrite Ea. intros u Hu.
        apply in_app_iff in Hu. destruct Hu as [Hu | [Hu | []]].
        -- specialize (Hq u Hu). revert Hq. unfold isBenign, pacedTimer.
           destruct (callback u); intros Hq; try discriminate; exact I.
        -- subst u. unfold pacedTimer; cbn [callback due].
           rewrite En. unfold loopPeriod.
           rewrite (ceiling_ticks _ j Hjd Hdone). unfold delayOfZ. lia.
    + (* the window runs on *)
      apply window_running in Hdone; [| exact Hdur].
      split; [| split].
      * intros u Hu. cbn [timers now setPlaybackPosition with_ui] in *.
        rewrite F1. apply In_requeue in Hu.
        destruct Hu as [[Hu _] | (p & Hp' & ->)]; [now apply Hon |].
        cbn [due period]. specialize (Hper p Hp').
        split; [lia |]. intros q Hq. injection Hq as <-. exact Hper.
      * exists k. split; [exact Hk0 |].
        cbn [playbackStartTimeRef setPlaybackPosition with_ui]. congruence.
      * cbn [timers playbackStartTimeRef setPlaybackPosition with_ui].
        rewrite F3. intros u Hu. apply In_requeue in Hu.
        destruct Hu as [[Hu _] | (p & Hp' & ->)]; [now apply Hpt |].
        unfold pacedTimer; cbn [callback due period bump].
        rewrite Hcb; cbn [bump].
        split; [congruence |]. exists (j + 1).
        assert (p = 16) by congruence. subst p.
        split; [lia |]. split; [lia |].
        replace (j + 1 - 1) with j by lia. exact Hdone.
  - (* the restart *)
    destruct Hkind as (-> & Hnone & Hben).
    assert (Hq : quiet (requeue t s)).
    { intros u Hu. apply In_requeue in Hu.
      destruct Hu as [[Hu Hne] | (p & Hp' & _)]; [now apply Hben | congruence]. }
    cbn [runCallback].
    destruct (startPlayback_tracked c r (requeue t s) Hrec Hhits Hq)
      as (P1 & P2 & _ & _).
    split; [| split].
    + intros u Hu. rewrite P2, F1.
      apply (In_startPlayback_due c r) in Hu; trivial.
      destruct Hu as [Hu | (Hd & Hpp & _)].
      * apply In_requeue in Hu.
        destruct Hu as [[Hu _] | (p & Hp' & _)]; [now apply Hon | congruence].
      * rewrite F1 in Hd. now split.
    + exists (k + 1). split; [lia |]. rewrite P1, F1, <- Hnow, Hpaced, Hk.
      ring.
    + rewrite P1, F1. intros u Hu.
      apply (In_startPlayback_due c r) in Hu; trivial.
      destruct Hu as [Hu | (_ & _ & Hm)].
      * specialize (Hq u Hu). revert Hq. unfold isBenign, pacedTimer.
        destruct (callback u); intros Hq; try discriminate; exact I.
      * revert Hm. rewrite F1. unfold pacedTimer.
        destruct (callback u); trivial; try contradiction.
        intros (Hp16 & Hd). split; [exact Hp16 |]. exists 1.
        split; [lia |]. split; [lia |]. exact Hdur.
  - (* a pad release *)
    apply paced_simple with (t := t) (s := s); trivial.
    + unfold isPlaybackTick. now rewrite Hcb.
    + unfold isLoopRestart. now rewrite Hcb.
    + intros u Hu. now left.
Qed.

Lemma paced_pstep (s s' : State) :
  looping c r t0 s -> paced r t0 s -> pstep s s' -> paced r t0 s'.
Proof.
  intros Hl Hp Hstep. destruct Hstep as [t s Hin Hdue | t s Hle Hall | id s].
  - now apply paced_fire.
  - destruct Hp as (Hon & Hk & Hpt). split; [| split]; trivial.
    intros u Hu. cbn in Hu. cbn [now set_now]. split.
    + now apply Hall.
    + apply (Hon u Hu).
  - destruct Hp as (Hon & Hk & Hpt). cbn [handle].
    destruct (playAudio_frame (ui s) id s) as (_ & G1 & _ & G3 & _).
    split; [| split].
    + intros u Hu. rewrite G1. apply In_playAudio_due in Hu.
      destruct Hu as [Hu | (_ & Hd & Hp')]; [now apply Hon |].
      rewrite Hd, Hp'. split; [lia | discriminate].
    + now rewrite G3.
    + rewrite G3. intros u Hu. apply In_playAudio_due in Hu.
      destruct Hu as [Hu | (Hr' & _ & _)]; [now apply Hpt |].
      revert Hr'. unfold isPadRelease, pacedTimer.
      destruct (callback u); intros Hr'; try discriminate. exact I.
Qed.

Lemma pstep_lstep (s s' : State) : pstep s s' -> lstep s s'.
Proof.
  intros [t s1 Hin Hdue | t s1 Hle _ | id s1];
    [now apply lstep_fire | now apply lstep_wait | apply lstep_pad].
Qed.

Lemma looping_paced_psteps (s s' : State) :
  looping c r t0 s -> paced r t0 s -> psteps s s' ->
  looping c r t0 s' /\ paced r t0 s'.
Proof.
  intros Hl Hp R. induction R as [| s1 s2 _ IH Hstep]; [now split |].
  destruct IH as [Hl1 Hp1]. split.
  - eapply looping_lstep; eauto. now apply pstep_lstep.
  - eapply paced_pstep; eauto.
Qed.

End LoopOnTime.

Lemma psteps_trans (a b c : State) : psteps a b -> psteps b c -> psteps a c.
Proof. apply star_trans. Qed.

Lemma psteps_one (a b : State) : pstep a b -> psteps a b.
Proof. intros H. eapply star_snoc; [apply star_refl | exact H]. Qed.

Lemma nextTimer_least (l : list Timer) (t u : Timer) :
  nextTimer l = Some t -> In u l -> due t <= due u.
Proof.
  revert t. induction l as [| a l IH]; simpl; intros t H Hu; [contradiction |].
  destruct (nextTimer l) as [m |] eqn:Hm.
  - specialize (IH m eq_refl).
    destruct (earlier a m) eqn:He; inversion H; subst; clear H.
    + unfold earlier in He. destruct Hu as [-> | Hu]; [lia |].
      specialize (IH Hu).
      apply orb_true_iff in He. destruct He as [He | He].
      * apply Z.ltb_lt in He. lia.
      * apply andb_true_iff in He. destruct He as [He _].
        apply Z.eqb_eq in He. lia.
    + destruct Hu as [-> | Hu]; [| now apply IH].
      unfold earlier in He. apply orb_false_iff in He.
      destruct He as [He _]. apply Z.ltb_ge in He. exact He.
  - inversion H; subst. destruct Hu as [-> | Hu]; [lia |].
    destruct l; [contradiction | simpl in Hm].
    destruct (nextTimer l); [destruct (earlier t0 t1) |]; discriminate.
Qed.

Lemma nextTimer_none (l : list Timer) : nextTimer l = None -> l = [].
Proof.
  destruct l as [| a l]; [reflexivity | simpl].
  destruct (nextTimer l) as [m |]; [destruct (earlier a m) |]; discriminate.
Qed.

Lemma noneOverdue_spec (s : State) (u : Timer) :
  noneOverdue s = true -> In u (timers s) -> now s <= due u.
Proof.
  unfold noneOverdue. rewrite forallb_forall. intros H Hu.
  apply Z.leb_le. now apply H.
Qed.

Lemma elapseOnTime_psteps (fuel : nat) (t : Z) (s s' : State) :
  elapseOnTime fuel t s = Some s' -> psteps s s'.
Proof.
  assert (Hlast : forall s : State,
             noneOverdue s = true ->
             (forall tm, nextTimer (timers s) = Some tm -> t < due tm) ->
             psteps s (set_now (Z.max (now s) t) s)).
  { intros x Hx Hn. apply psteps_one, pstep_wait; [lia |].
    intros u Hu. pose proof (noneOverdue_spec x u Hx Hu) as H1.
    destruct (nextTimer (timers x)) as [tm |] eqn:E.
    - pose proof (nextTimer_least _ _ u E Hu). specialize (Hn tm eq_refl). lia.
    - apply nextTimer_none in E. rewrite E in Hu. contradiction. }
  revert s. induction fuel as [| fuel IH]; intros s; simpl;
    destruct (noneOverdue s) eqn:Hs; try discriminate;
    destruct (nextTimer (timers s)) as [tm |] eqn:Hn.
  - destruct (due tm <=? t) eqn:Hd; [discriminate |].
    intros H; inversion H; subst. apply Hlast; [exact Hs |].
    intros tm' E. rewrite Hn in E. injection E as <-. now apply Z.leb_gt.
  - intros H; inversion H; subst. apply Hlast; [exact Hs |]. intros tm' E. rewrite Hn in E. discriminate.
  - destruct (due tm <=? t) eqn:Hd.
    + intros H. apply IH in H. eapply psteps_trans; [| exact H].
      eapply psteps_trans.
      * apply psteps_one. apply (pstep_wait (due tm)).
        -- apply noneOverdue_spec; [exact Hs | now apply nextTimer_In].
        -- intros u Hu. now apply (nextTimer_least _ _ u Hn).
      * apply psteps_one. apply pstep_fire.
        -- simpl. now apply nextTimer_In.
        -- simpl. lia.
    + intros H; inversion H; subst. apply Hlast; [exact Hs |].
      intros tm' E. rewrite Hn in E. injection E as <-. now apply Z.leb_gt.
  - intros H; inversion H; subst. apply Hlast; [exact Hs |]. intros tm' E. rewrite Hn in E. discriminate.
Qed.

Lemma startPlayback_paced (c : Render) (r : Recording.t) (s0 : State) :
  recording c = Some r -> Recording.hits r <> [] ->
  (0 < Recording.duration r)%Q -> quiet s0 -> onTime s0 ->
  paced r (now s0) (startPlayback c s0).
Proof.
  intros Hr Hh Hd Hq Hon.
  destruct (startPlayback_tracked c r s0 Hr Hh Hq) as (P1 & P2 & _ & _).
  split; [| split].
  - intros u Hu. rewrite P2.
    apply (In_startPlayback_due c r) in Hu; trivial.
    destruct Hu as [Hu | (H1 & H2 & _)]; [now apply Hon | now split].
  - exists 0. split; [lia |]. rewrite P1. ring.
  - rewrite P1. intros u Hu.
    apply (In_startPlayback_due c r) in Hu; trivial.
    destruct Hu as [Hu | (_ & _ & Hm)].
    + specialize (Hq u Hu). revert Hq. unfold isBenign, pacedTimer.
      destruct (callback u); intros Hq; try discriminate; exact I.
    + revert Hm. unfold pacedTimer.
      destruct (callback u); trivial; try contradiction.
      intros (Hp16 & Hdu). split; [exact Hp16 |]. exists 1.
      split; [lia |]. split; [lia |]. exact Hd.
Qed.

Lemma loopPeriod_bounds (r : Recording.t) :
  (Recording.duration r + 50 <= inject_Z (loopPeriod r))%Q
  /\ (inject_Z (loopPeriod r) < Recording.duration r + 66)%Q.
Proof.
  unfold loopPeriod. set (d := Recording.duration r).
  pose proof (Qle_ceiling (d / 16)) as H1.
  pose proof (Qceiling_lt (d / 16)) as H2.
  rewrite inject_Z_plus, inject_Z_mult.
  unfold Z.sub in H2. rewrite inject_Z_plus in H2.
  change (inject_Z 16) with 16%Q. change (inject_Z 50) with 50%Q.
  change (inject_Z (- (1))) with (-1)%Q in H2.
  set (n := inject_Z (Qceiling (d / 16))) in *.
  assert (E : (d == d / 16 * 16)%Q) by (field).
  split; lra.
Qed.

Lemma readyToPlay_onTime : onTime readyToPlay.
Proof.
  intros u Hu. cbn in Hu. destruct Hu as [<- | []]. cbn.
  split; [lia | discriminate].
Qed.

(** ** Drift of the loop *)



